(** * A URL shortener: key pool, mapping store, lookup cache and expiry sweep

    Shallow embedding of [app.py].  The program keeps three pieces of state:

    - the SQL table behind [KeyPool] (short codes, each free or used),
    - the Mongo collection [url_mapping] (short code, long URL, expiry),
    - the [lru_cache] in front of [get_url_mapping].

    Every function of the source is a computation in a small state and
    exception monad [M], run one request or one sweep at a time.  What the
    program reads from outside is explicit: the clock is an argument [now],
    the random generator is a stream [rand] with a cursor in the state, and
    the outcome of the commit that [recycle_key] guards with a bare
    [except] is an argument [commit_ok].  The other calls into the two
    stores are taken to reach them, and the collection keeps a document as
    it was inserted. *)

From Stdlib Require Import ZArith Ascii String List Lia.
From stdpp Require Import base option list sets strings relations.

Local Open Scope string_scope.
Local Open Scope list_scope.
Local Open Scope Z_scope.

(** ** Time *)

(** A [datetime] in UTC is the number of microseconds since
    0001-01-01T00:00:00, the first instant the type can hold; a [timedelta]
    is a number of microseconds.  Both constructors of the standard library
    refuse values outside their range with [OverflowError]. *)
Module datetime.

Definition t := Z.

Definition us_per_second : Z := 1000000.
Definition us_per_day : Z := 86400 * us_per_second.

(** [date.max.toordinal()], the day number of 9999-12-31. *)
Definition max_ordinal : Z := 3652059.

Definition in_range (x : Z) : bool :=
  (0 <=? x) && (x <? max_ordinal * us_per_day).

(** [timedelta(days=d)]: [None] stands for [OverflowError]. *)
Definition timedelta (days : Z) : option Z :=
  if Z.abs days <=? 999999999 then Some (days * us_per_day) else None.

(** [x + td]: [None] stands for [OverflowError]. *)
Definition add (x : t) (td : Z) : option t :=
  if in_range (x + td) then Some (x + td) else None.

Definition days_before_month (month : Z) : Z :=
  nth (Z.to_nat month)
      [-1; 0; 31; 59; 90; 120; 151; 181; 212; 243; 273; 304; 334] 0.

Definition days_in_month (month : Z) : Z :=
  nth (Z.to_nat month) [-1; 31; 28; 31; 30; 31; 30; 31; 31; 30; 31; 30; 31] 0.

Definition b2z (b : bool) : Z := if b then 1 else 0.

(** The calendar date of a day number (1 is 0001-01-01), as the standard
    library computes it from cycles of 400, 100, 4 and 1 years. *)
Definition ord2ymd (ordinal : Z) : Z * Z * Z :=
  let n := ordinal - 1 in
  let n400 := n / 146097 in
  let n := n mod 146097 in
  let n100 := n / 36524 in
  let n := n mod 36524 in
  let n4 := n / 1461 in
  let n := n mod 1461 in
  let n1 := n / 365 in
  let n := n mod 365 in
  let year := n400 * 400 + 1 + n100 * 100 + n4 * 4 + n1 in
  if (n1 =? 4) || (n100 =? 4) then (year - 1, 12, 31)
  else
    let leapyear := (n1 =? 3) && (negb (n4 =? 24) || (n100 =? 3)) in
    let month := Z.shiftr (n + 50) 5 in
    let preceding :=
      days_before_month month + b2z ((2 <? month) && leapyear) in
    if n <? preceding then
      let month' := month - 1 in
      let preceding' :=
        preceding - (days_in_month month' + b2z ((month' =? 2) && leapyear)) in
      (year, month', n - preceding' + 1)
    else (year, month, n - preceding + 1).

Definition digit (n : Z) : ascii := ascii_of_nat (48 + Z.to_nat (n mod 10)).

(** [n] written with [width] decimal digits, zero padded. *)
Fixpoint zero_padded (width : nat) (n : Z) : list ascii :=
  match width with
  | O => []
  | S w => zero_padded w (n / 10) ++ [digit n]
  end.

Definition fmt (width : nat) (n : Z) : string :=
  string_of_list_ascii (zero_padded width n).

(** [x.isoformat()] for a datetime carrying the UTC zone: the microsecond
    field is printed only when it is not zero. *)
Definition isoformat (x : t) : string :=
  let '(year, month, day) := ord2ymd (x / us_per_day + 1) in
  let rest := x mod us_per_day in
  let secs := rest / us_per_second in
  let us := rest mod us_per_second in
  fmt 4 year +:+ "-" +:+ fmt 2 month +:+ "-" +:+ fmt 2 day +:+ "T" +:+
  fmt 2 (secs / 3600) +:+ ":" +:+ fmt 2 (secs / 60 mod 60) +:+ ":" +:+
  fmt 2 (secs mod 60) +:+
  (if us =? 0 then "" else "." +:+ fmt 6 us) +:+ "+00:00".

(** The instant of a calendar day at midnight, used to write examples. *)
Definition of_ordinal (ordinal : Z) : t := (ordinal - 1) * us_per_day.

End datetime.

(** ** Stored data *)

(** A row of the [KeyPool] table.  The column [created_at] is filled by its
    default when the row is inserted and is never read; it is left out.
    [short_code] is declared unique. *)
Module KeyPool.
Record t := Row { id : nat; short_code : string; used : bool }.

Definition set_used (b : bool) (e : t) : t :=
  {| id := id e; short_code := short_code e; used := b |}.

#[global] Instance eq_dec : EqDecision t.
Proof. solve_decision. Defined.
End KeyPool.

(** A document of the [url_mapping] collection.  [_id] is assigned by the
    store and is unique in the collection; [expires_at] may be null. *)
Module Doc.
Record t := Make {
  _id : nat;
  short_code : string;
  long_url : string;
  expires_at : option datetime.t
}.

#[global] Instance eq_dec : EqDecision t.
Proof. solve_decision. Defined.
End Doc.

(** What [get_url_mapping] returns: [None], or the pair
    [(long_url, expires_at)]. *)
Definition mapping : Type := option (string * option datetime.t).

Record state := State {
  key_pool : list KeyPool.t;
  url_mapping : list Doc.t;
  (** entries of the [lru_cache], most recently used first *)
  cache : list (string * mapping);
  (** how many values the random generator has handed out *)
  rng_pos : nat
}.

Definition with_key_pool (p : list KeyPool.t) (st : state) : state :=
  {| key_pool := p; url_mapping := url_mapping st;
     cache := cache st; rng_pos := rng_pos st |}.

Definition with_url_mapping (m : list Doc.t) (st : state) : state :=
  {| key_pool := key_pool st; url_mapping := m;
     cache := cache st; rng_pos := rng_pos st |}.

Definition with_cache (c : list (string * mapping)) (st : state) : state :=
  {| key_pool := key_pool st; url_mapping := url_mapping st;
     cache := c; rng_pos := rng_pos st |}.

Definition with_rng_pos (n : nat) (st : state) : state :=
  {| key_pool := key_pool st; url_mapping := url_mapping st;
     cache := cache st; rng_pos := n |}.

(** ** Computations *)

Inductive exn := IntegrityError | OperationalError | OverflowError.

(** [OutOfFuel] is the outcome of a run whose recursion went deeper than
    the fuel it was given; only [allocate_key] recurses. *)
Inductive result (A : Type) :=
| Ok (a : A) (st : state)
| Raise (e : exn) (st : state)
| OutOfFuel.
Arguments Ok {A} a st.
Arguments Raise {A} e st.
Arguments OutOfFuel {A}.

Definition M (A : Type) : Type := state -> result A.

Definition ret {A} (a : A) : M A := fun st => Ok a st.

Definition bind {A B} (m : M A) (k : A -> M B) : M B := fun st =>
  match m st with
  | Ok a st' => k a st'
  | Raise e st' => Raise e st'
  | OutOfFuel => OutOfFuel
  end.

Definition raise {A} (e : exn) : M A := fun st => Raise e st.

Definition get : M state := fun st => Ok st st.
Definition modify (f : state -> state) : M unit := fun st => Ok tt (f st).

(** [try: body except <catches>: handler] *)
Definition try_except {A} (body : M A) (catches : exn -> bool) (handler : M A)
  : M A := fun st =>
  match body st with
  | Raise e st' => if catches e then handler st' else Raise e st'
  | r => r
  end.

(** A library call that either gives a value or raises. *)
Definition or_raise {A} (e : exn) (o : option A) : M A :=
  match o with Some a => ret a | None => raise e end.

Declare Scope prog_scope.
Delimit Scope prog_scope with prog.
Notation "x <- m ;; k" := (bind m (fun x => k))
  (at level 100, m at next level, right associativity) : prog_scope.
Notation "m ;; k" := (bind m (fun _ => k))
  (at level 100, right associativity) : prog_scope.
Local Open Scope prog_scope.

Fixpoint for_each {A} (i : nat) (l : list A) (body : nat -> A -> M unit)
  : M unit :=
  match l with
  | [] => ret tt
  | x :: l' => body i x ;; for_each (S i) l' body
  end.

(** ** The key pool *)

Definition ascii_letters : string :=
  "abcdefghijklmnopqrstuvwxyzABCDEFGHIJKLMNOPQRSTUVWXYZ".
Definition digits : string := "0123456789".

(** [KeyPool.query.filter_by(...).first()]: the first row that matches,
    with its position in the table. *)
Definition query_first (p : KeyPool.t -> bool) : M (option (nat * KeyPool.t)) :=
  st <- get ;; ret (list_find (fun e => p e = true) (key_pool st)).

(** The primary key the table gives to a new row. *)
Definition next_id (pool : list KeyPool.t) : nat :=
  S (max_list (KeyPool.id <$> pool)).

(** What the session holds for [key_entry]: a row of the table, or an
    object added to the session and not yet inserted. *)
Inductive row_ref := Persistent (i : nat) | Pending.

(** [db.session.commit()] with [key_entry] modified.  An insert that
    repeats a short code violates the unique constraint and is refused;
    the table is then as it was. *)
Definition session_commit (r : row_ref) (e : KeyPool.t) : M unit := fun st =>
  match r with
  | Persistent i => Ok tt (with_key_pool (<[i := e]> (key_pool st)) st)
  | Pending =>
      if bool_decide (KeyPool.short_code e ∈ KeyPool.short_code <$> key_pool st)
      then Raise IntegrityError st
      else Ok tt (with_key_pool (key_pool st ++ [e]) st)
  end.

(** A commit the database refuses for a reason of its own (a lock, a lost
    connection) raises before it changes anything. *)
Definition database_fault (ok : bool) : M unit :=
  if ok then ret tt else raise OperationalError.

(** [db.session.rollback()]: the table never saw the failed changes. *)
Definition session_rollback : M unit := ret tt.

Definition is_IntegrityError (e : exn) : bool :=
  match e with IntegrityError => true | _ => false end.

(** ** Requests and responses *)

(** The JSON body of [POST /shorten], with the two fields the route reads;
    [None] is a field the caller left out. *)
Module Request.
Record t := Make { long_url : option string; expires_in_days : option Z }.
End Request.

(** [jsonify(body), status] and [redirect(location, code=code)]. *)
Inductive response :=
| Json (status : Z) (body : list (string * string))
| Redirect (code : Z) (location : string).

(** The truth value Python gives to what [data.get("long_url")] returns. *)
Definition truthy (o : option string) : bool :=
  match o with
  | None => false
  | Some s => negb (bool_decide (s = ""))
  end.

Definition BASE_URL : string := "http://localhost:5000/".

Definition lru_maxsize : nat := 1000.

(** The filter [{"expires_at": {"$lt": now}}] on one document. *)
Definition lt_now (now : datetime.t) (d : Doc.t) : bool :=
  match Doc.expires_at d with
  | Some expiry => expiry <? now
  | None => false
  end.

Section Program.

(** [rand n] is the [n]-th value the process-wide random generator
    hands out. *)
Variable rand : nat -> nat.

(** [random.choices(population, k=k)]: [k] independent picks, each at an
    index below the size of the population. *)
Definition picks (population : list ascii) (pos k : nat) : list ascii :=
  (fun j => nth (rand (pos + j) mod length population)%nat
                population "000"%char) <$> seq 0 k.

Definition random_choices (population : list ascii) (k : nat)
  : M (list ascii) := fun st =>
  Ok (picks population (rng_pos st) k) (with_rng_pos (rng_pos st + k) st).

Definition generate_short_code (length : nat) : M string :=
  let allowed_chars := ascii_letters +:+ digits in
  cs <- random_choices (list_ascii_of_string allowed_chars) length ;;
  ret (string_of_list_ascii cs).

(** The recursive call of the source is bounded here by [fuel], the depth
    the recursion may reach.  The source itself has no bound. *)
Fixpoint allocate_key (fuel : nat) : M string :=
  match fuel with
  | O => fun _ => OutOfFuel
  | S fuel' =>
      try_except
        (found <- query_first (fun e => negb (KeyPool.used e)) ;;
         key_entry <-
           match found with
           | Some (i, e) => ret (Persistent i, e)
           | None =>
               new_code <- generate_short_code 8 ;;
               st <- get ;;
               ret (Pending,
                    {| KeyPool.id := next_id (key_pool st);
                       KeyPool.short_code := new_code;
                       KeyPool.used := false |})
           end ;;
         let '(r, e) := key_entry in
         session_commit r (KeyPool.set_used true e) ;;
         ret (KeyPool.short_code e))
        is_IntegrityError
        (session_rollback ;; allocate_key fuel')
  end.

(** [commit_ok] tells whether the commit goes through. *)
Definition recycle_key (commit_ok : bool) (short_code : string) : M unit :=
  found <- query_first
             (fun e => bool_decide (KeyPool.short_code e = short_code)) ;;
  match found with
  | Some (i, e) =>
      try_except
        (database_fault commit_ok ;;
         session_commit (Persistent i) (KeyPool.set_used false e))
        (fun _ => true)
        session_rollback
  | None => ret tt
  end.

(** ** The mapping store and its cache *)

(** [url_mapping.find_one({"short_code": short_code})] *)
Definition find_one (short_code : string) : M (option Doc.t) :=
  st <- get ;;
  ret (snd <$> list_find (fun d => Doc.short_code d = short_code)
                         (url_mapping st)).

(** [url_mapping.find({"expires_at": {"$lt": now}})]: a null
    [expires_at] matches no comparison. *)
Definition find_expired (now : datetime.t) : M (list Doc.t) :=
  st <- get ;; ret (filter (fun d => lt_now now d) (url_mapping st)).

(** [url_mapping.delete_one({"_id": oid})]: the first match goes. *)
Definition delete_one (oid : nat) : M unit :=
  modify (fun st =>
    match list_find (fun d => Doc._id d = oid) (url_mapping st) with
    | Some (i, _) => with_url_mapping (delete i (url_mapping st)) st
    | None => st
    end).

(** The document [insert_one] stores: the store gives it an [_id] that no
    document of the collection has. *)
Definition new_doc (docs : list Doc.t) (short_code long_url : string)
    (expires_at : option datetime.t) : Doc.t :=
  {| Doc._id := S (max_list (Doc._id <$> docs));
     Doc.short_code := short_code;
     Doc.long_url := long_url;
     Doc.expires_at := expires_at |}.

(** [url_mapping.insert_one(doc)] *)
Definition insert_one (short_code long_url : string)
           (expires_at : option datetime.t) : M unit :=
  modify (fun st =>
    with_url_mapping
      (url_mapping st
       ++ [new_doc (url_mapping st) short_code long_url expires_at]) st).

(** [get_url_mapping] under [@lru_cache(maxsize=1000)]: a hit returns the
    remembered result and makes its entry the most recent one; a miss
    runs the body, remembers the result (a [None] as well) and drops the
    least recently used entry once the cache is full. *)
Definition get_url_mapping (short_code : string) : M mapping :=
  st <- get ;;
  match list_find (fun kv => kv.1 = short_code) (cache st) with
  | Some (i, (_, v)) =>
      modify (with_cache ((short_code, v) :: delete i (cache st))) ;;
      ret v
  | None =>
      doc <- find_one short_code ;;
      let v := (fun d => (Doc.long_url d, Doc.expires_at d)) <$> doc in
      modify (fun st =>
        with_cache (take lru_maxsize ((short_code, v) :: cache st)) st) ;;
      ret v
  end.

(** [get_url_mapping.cache_clear()] *)
Definition invalidate_cache : M unit := modify (with_cache []).

(** ** The expiry sweep *)

(** The body of the loop over [expired_docs]; [commit_ok i] is the fate
    of the commit of its [i]-th iteration. *)
Definition cleanup_body (commit_ok : nat -> bool) (i : nat) (doc : Doc.t)
  : M unit :=
  let short_code := Doc.short_code doc in
  delete_one (Doc._id doc) ;;
  recycle_key (commit_ok i) short_code.

Definition cleanup_expired_urls (commit_ok : nat -> bool) (now : datetime.t)
  : M unit :=
  expired_docs <- find_expired now ;;
  for_each 0 expired_docs (cleanup_body commit_ok) ;;
  match expired_docs with
  | [] => ret tt
  | _ :: _ => invalidate_cache
  end.

(** ** The two routes *)

Definition redirect_short_url (short_code : string) (now : datetime.t)
  : M response :=
  found <- get_url_mapping short_code ;;
  match found with
  | None => ret (Json 404 [("error", "Short URL not found")])
  | Some (long_url, expires_at) =>
      (* [replace(tzinfo=timezone.utc)] keeps the instant *)
      match expires_at with
      | Some expiry =>
          if now >? expiry then ret (Json 410 [("error", "URL expired")])
          else ret (Redirect 302 long_url)
      | None => ret (Redirect 302 long_url)
      end
  end.

Definition shorten_url (fuel : nat) (data : Request.t) (now : datetime.t)
  : M response :=
  let long_url := Request.long_url data in
  if negb (truthy long_url) then ret (Json 400 [("error", "No URL provided")])
  else
    let long_url := default "" long_url in
    let expires_in_days := default 365 (Request.expires_in_days data) in
    delta <- or_raise OverflowError (datetime.timedelta expires_in_days) ;;
    expires_at <- or_raise OverflowError (datetime.add now delta) ;;
    short_code <- allocate_key fuel ;;
    insert_one short_code long_url (Some expires_at) ;;
    invalidate_cache ;;
    let short_url := BASE_URL +:+ short_code in
    ret (Json 201 [("short_url", short_url); ("long_url", long_url);
                   ("expires_at", datetime.isoformat expires_at)]).

End Program.

(** ** Vocabulary of the statements *)

(** The row [filter_by(used=False).first()] finds, with its position. *)
Definition first_unused (pool : list KeyPool.t) : option (nat * KeyPool.t) :=
  list_find (fun e => negb (KeyPool.used e) = true) pool.

(** The row [filter_by(short_code=c).first()] finds, with its position. *)
Definition slot_of (c : string) (pool : list KeyPool.t)
  : option (nat * KeyPool.t) :=
  list_find (fun e => bool_decide (KeyPool.short_code e = c) = true) pool.

Definition codes (pool : list KeyPool.t) : list string :=
  KeyPool.short_code <$> pool.

(** The document [find_one] finds in a collection. *)
Definition lookup_doc (c : string) (docs : list Doc.t) : option Doc.t :=
  snd <$> list_find (fun d => Doc.short_code d = c) docs.

(** What the body of [get_url_mapping] computes from the collection. *)
Definition stored (c : string) (docs : list Doc.t) : mapping :=
  (fun d => (Doc.long_url d, Doc.expires_at d)) <$> lookup_doc c docs.

(** What a lookup answers in a state: the cached result if the cache has
    one for the code, the stored one otherwise. *)
Definition looked_up (c : string) (st : state) : mapping :=
  match list_find (fun kv => kv.1 = c) (cache st) with
  | Some (_, (_, v)) => v
  | None => stored c (url_mapping st)
  end.

(** The code [generate_short_code] builds from the eight values the
    generator hands out from position [pos] on. *)
Definition code_at (rand : nat -> nat) (pos : nat) : string :=
  string_of_list_ascii
    (picks rand (list_ascii_of_string (ascii_letters +:+ digits)) pos 8).

(** The [k]-th code drawn from the state on is the first that no row of
    the pool carries. *)
Definition first_fresh (rand : nat -> nat) (st : state) (k : nat) : Prop :=
  (forall j, (j < k)%nat ->
     code_at rand (rng_pos st + 8 * j) ∈ codes (key_pool st)) /\
  code_at rand (rng_pos st + 8 * k) ∉ codes (key_pool st).

Arguments code_at : simpl never.

Definition is_alnum (c : ascii) : bool :=
  bool_decide (c ∈ list_ascii_of_string (ascii_letters +:+ digits)).

(** The pool once the row of a code, if there is one, is set free. *)
Definition release (c : string) (pool : list KeyPool.t) : list KeyPool.t :=
  match slot_of c pool with
  | Some (i, e) => <[i := KeyPool.set_used false e]> pool
  | None => pool
  end.

(** The collection once the first document with an [_id] is gone. *)
Definition remove_id (oid : nat) (docs : list Doc.t) : list Doc.t :=
  match list_find (fun d => Doc._id d = oid) docs with
  | Some (i, _) => delete i docs
  | None => docs
  end.

(** The collection once the loop of the sweep has deleted [docs]. *)
Definition remove_all (docs : list Doc.t) (m : list Doc.t) : list Doc.t :=
  foldl (fun m d => remove_id (Doc._id d) m) m docs.

(** The short codes whose commit goes through in the loop of the sweep,
    started at iteration [i]. *)
Fixpoint committed (commit_ok : nat -> bool) (i : nat) (docs : list Doc.t)
  : list string :=
  match docs with
  | [] => []
  | d :: ds =>
      (if commit_ok i then [Doc.short_code d] else [])
      ++ committed commit_ok (S i) ds
  end.

(** The pool once the loop of the sweep has recycled the codes of [docs]. *)
Fixpoint release_all (commit_ok : nat -> bool) (i : nat) (docs : list Doc.t)
    (pool : list KeyPool.t) : list KeyPool.t :=
  match docs with
  | [] => pool
  | d :: ds =>
      release_all commit_ok (S i) ds
        (if commit_ok i then release (Doc.short_code d) pool else pool)
  end.

(** A row, set free when its code is one of [cs]. *)
Definition freed_if_in (cs : list string) (e : KeyPool.t) : KeyPool.t :=
  if bool_decide (KeyPool.short_code e ∈ cs)
  then KeyPool.set_used false e else e.

(** The cache after a lookup of [c]: the entry moves to the front on a hit;
    on a miss the stored result is remembered and the oldest entry makes
    room once the cache is full. *)
Definition cache_after (c : string) (st : state) : list (string * mapping) :=
  match list_find (fun kv => kv.1 = c) (cache st) with
  | Some (i, (_, v)) => (c, v) :: delete i (cache st)
  | None => take lru_maxsize ((c, stored c (url_mapping st)) :: cache st)
  end.







(** What the two stores guarantee and the program maintains: [_id]s and
    the codes of the pool are unique, no two mappings share a code, and
    the code of every mapping has a row marked used. *)
Definition consistent (st : state) : Prop :=
  NoDup (Doc._id <$> url_mapping st) /\
  NoDup (codes (key_pool st)) /\
  NoDup (Doc.short_code <$> url_mapping st) /\
  forall d, d ∈ url_mapping st ->
    exists e, e ∈ key_pool st /\
      KeyPool.short_code e = Doc.short_code d /\ KeyPool.used e = true.

(** The state a run ends in, whether it returns or raises. *)
Definition final_state {A} (r : result A) : option state :=
  match r with
  | Ok _ st | Raise _ st => Some st
  | OutOfFuel => None
  end.

(** ** The service, one operation at a time *)

(** One request or one sweep, run to its end, from a state to the state it
    leaves. *)
Inductive step (rand : nat -> nat) (st : state) : state -> Prop :=
| step_shorten fuel data now st' :
    final_state (shorten_url rand fuel data now st) = Some st' ->
    step rand st st'
| step_redirect c now st' :
    final_state (redirect_short_url c now st) = Some st' ->
    step rand st st'
| step_cleanup commit_ok now st' :
    final_state (cleanup_expired_urls commit_ok now st) = Some st' ->
    step rand st st'.

(** The states the service can be in: it starts with an empty table, an
    empty collection and an empty cache. *)
Inductive reachable (rand : nat -> nat) : state -> Prop :=
| reachable_start pos : reachable rand (State [] [] [] pos)
| reachable_step st st' :
    reachable rand st -> step rand st st' -> reachable rand st'.


(** The cache within its capacity, with one entry per code. *)
Definition cache_bounded (st : state) : Prop :=
  (length (cache st) <= lru_maxsize)%nat /\ NoDup (cache st).*1.

(** A code that is lost to the pool: it has a row marked used and no
    mapping. *)
Definition leaked (c : string) (st : state) : Prop :=
  (exists e, e ∈ key_pool st /\
     KeyPool.short_code e = c /\ KeyPool.used e = true) /\
  (forall d, d ∈ url_mapping st -> Doc.short_code d <> c).

(** ** Sample states *)

(** A generator that hands out 0, 1, 2, ...: the codes drawn are
    [abcdefgh], [ijklmnop], and so on. *)
Definition rand_counting (n : nat) : nat := n.


(** 2024-02-29T00:00:00 *)
Definition feb29 : datetime.t := datetime.of_ordinal 738945.

(** A pool whose only row is used. *)
Definition st_taken : state :=
  State [KeyPool.Row 1 "aaaaaaaa" true] [] [] 0.

Definition doc_old : Doc.t :=
  Doc.Make 1 "aaaaaaaa" "http://example.com" (Some feb29).

Definition doc_live : Doc.t :=
  Doc.Make 2 "bbbbbbbb" "http://example.org"
           (Some (feb29 + 365 * datetime.us_per_day)).

(** Two mappings, a free row left by an earlier sweep, and a cache that
    remembers that [cccccccc] had no mapping. *)
Definition st_two : state :=
  State [KeyPool.Row 1 "aaaaaaaa" true; KeyPool.Row 2 "bbbbbbbb" true;
         KeyPool.Row 3 "cccccccc" false]
        [doc_old; doc_live]
        [("cccccccc", None)]
        24.

(** A request that names no retention window. *)
Definition req_net : Request.t :=
  Request.Make (Some "http://example.net") None.

(** The same stores behind a cache that has seen no lookup yet. *)
Definition st_cold : state := with_cache [] st_two.

(** A request whose mapping expires at the instant it is made. *)
Definition req_zero : Request.t :=
  Request.Make (Some "http://example.com") (Some 0).

(** The state after [req_zero] at [feb29] on empty stores, with
    [rand_counting]. *)
Definition st_created : state :=
  State [KeyPool.Row 1 "abcdefgh" true]
        [Doc.Make 1 "abcdefgh" "http://example.com" (Some feb29)]
        [] 8.

(** A cache that is full: it remembers that the 1000 codes [00000000] to
    [00000999] had no mapping. *)
Definition full_cache : list (string * mapping) :=
  (fun n => (datetime.fmt 8 (Z.of_nat n), None)) <$> seq 0 1000.

Definition st_full : state := State [] [] full_cache 0.

(** * Properties *)

Section Properties.

Variable rand : nat -> nat.

(** ** Allocation *)

Lemma generate_short_code_run (st : state) :
  generate_short_code rand 8 st
  = Ok (code_at rand (rng_pos st)) (with_rng_pos (rng_pos st + 8) st).
Proof. reflexivity. Qed.

Lemma query_unused (st : state) :
  query_first (fun e => negb (KeyPool.used e)) st
  = Ok (first_unused (key_pool st)) st.
Proof. reflexivity. Qed.

Lemma query_slot (c : string) (st : state) :
  query_first (fun e => bool_decide (KeyPool.short_code e = c)) st
  = Ok (slot_of c (key_pool st)) st.
Proof. reflexivity. Qed.

(** One attempt when a free row exists: the row is claimed. *)
Lemma allocate_key_claim (fuel : nat) (st : state) (i : nat) (e : KeyPool.t) :
  first_unused (key_pool st) = Some (i, e) ->
  allocate_key rand (S fuel) st
  = Ok (KeyPool.short_code e)
       (with_key_pool (<[i := KeyPool.set_used true e]> (key_pool st)) st).
Proof.
  intros Hfree.
  cbn [allocate_key]. unfold try_except, bind.
  rewrite query_unused, Hfree. reflexivity.
Qed.

(** One attempt when no row is free and the drawn code is new: the code
    is inserted, already marked used. *)
Lemma allocate_key_mint (fuel : nat) (st : state) :
  first_unused (key_pool st) = None ->
  code_at rand (rng_pos st) ∉ codes (key_pool st) ->
  allocate_key rand (S fuel) st
  = Ok (code_at rand (rng_pos st))
       (State (key_pool st ++
               [KeyPool.Row (next_id (key_pool st))
                            (code_at rand (rng_pos st)) true])
              (url_mapping st) (cache st) (rng_pos st + 8)).
Proof.
  intros Hnone Hnew.
  cbn [allocate_key]. unfold try_except, bind.
  rewrite query_unused, Hnone, generate_short_code_run.
  unfold session_commit. cbn.
  rewrite bool_decide_eq_false_2 by exact Hnew. reflexivity.
Qed.

(** One attempt when no row is free and the drawn code is taken: the
    insert is refused, and the function calls itself. *)
Lemma allocate_key_conflict (fuel : nat) (st : state) :
  first_unused (key_pool st) = None ->
  code_at rand (rng_pos st) ∈ codes (key_pool st) ->
  allocate_key rand (S fuel) st
  = allocate_key rand fuel (with_rng_pos (rng_pos st + 8) st).
Proof.
  intros Hnone Hdup.
  cbn [allocate_key]. unfold try_except, bind.
  rewrite query_unused, Hnone, generate_short_code_run.
  unfold session_commit. cbn.
  rewrite bool_decide_eq_true_2 by exact Hdup. reflexivity.
Qed.

Lemma first_fresh_next (st : state) (k : nat) :
  code_at rand (rng_pos st) ∈ codes (key_pool st) ->
  first_fresh rand (with_rng_pos (rng_pos st + 8) st) k
  <-> first_fresh rand st (S k).
Proof.
  intros Hdup. unfold first_fresh. cbn [key_pool rng_pos with_rng_pos].
  replace (rng_pos st + 8 + 8 * k)%nat with (rng_pos st + 8 * S k)%nat by lia.
  split; intros [Hbefore Hat]; (split; [|exact Hat]); intros j Hj.
  - destruct j as [|j].
    + replace (rng_pos st + 8 * 0)%nat with (rng_pos st) by lia. exact Hdup.
    + replace (rng_pos st + 8 * S j)%nat with (rng_pos st + 8 + 8 * j)%nat
        by lia.
      apply Hbefore. lia.
  - replace (rng_pos st + 8 + 8 * j)%nat with (rng_pos st + 8 * S j)%nat
      by lia.
    apply Hbefore. lia.
Qed.

(** After [k] refused inserts in a row the call is [k] calls deep, and it
    returns with the first code the pool does not have. *)
Lemma allocate_key_retry (k : nat) : forall (st : state),
  first_unused (key_pool st) = None ->
  first_fresh rand st k ->
  (forall fuel, (fuel <= k)%nat -> allocate_key rand fuel st = OutOfFuel) /\
  (forall fuel, (k < fuel)%nat ->
     allocate_key rand fuel st
     = Ok (code_at rand (rng_pos st + 8 * k))
          (State (key_pool st ++
                  [KeyPool.Row (next_id (key_pool st))
                               (code_at rand (rng_pos st + 8 * k)) true])
                 (url_mapping st) (cache st) (rng_pos st + 8 * S k))).
Proof.
  induction k as [|k IH]; intros st Hnone Hfresh.
  - destruct Hfresh as [_ Hat].
    replace (rng_pos st + 8 * 0)%nat with (rng_pos st) in * by lia.
    split; intros fuel Hfuel.
    + replace fuel with 0%nat by lia. reflexivity.
    + destruct fuel as [|fuel]; [lia|].
      rewrite allocate_key_mint by assumption.
      repeat f_equal; lia.
  - assert (Hdup : code_at rand (rng_pos st) ∈ codes (key_pool st)).
    { destruct Hfresh as [Hbefore _].
      replace (rng_pos st) with (rng_pos st + 8 * 0)%nat by lia.
      apply Hbefore. lia. }
    apply first_fresh_next in Hfresh; [|exact Hdup].
    destruct (IH (with_rng_pos (rng_pos st + 8) st) Hnone Hfresh)
      as [Hshort Hlong].
    split; intros fuel Hfuel.
    + destruct fuel as [|fuel]; [reflexivity|].
      rewrite allocate_key_conflict by assumption. apply Hshort. lia.
    + destruct fuel as [|fuel]; [lia|].
      rewrite allocate_key_conflict by assumption.
      rewrite Hlong by lia. cbn [key_pool url_mapping cache rng_pos with_rng_pos].
      replace (rng_pos st + 8 + 8 * k)%nat with (rng_pos st + 8 * S k)%nat
        by lia.
      replace (rng_pos st + 8 + 8 * S k)%nat
        with (rng_pos st + 8 * S (S k))%nat by lia.
      reflexivity.
Qed.

(** Every way [allocate_key] can return. *)
Lemma allocate_key_inv (fuel : nat) : forall (st : state) code st',
  allocate_key rand fuel st = Ok code st' ->
  (exists i e, first_unused (key_pool st) = Some (i, e) /\
     code = KeyPool.short_code e /\
     st' = with_key_pool (<[i := KeyPool.set_used true e]> (key_pool st)) st)
  \/ (first_unused (key_pool st) = None /\
      exists k, (k < fuel)%nat /\ first_fresh rand st k /\
        code = code_at rand (rng_pos st + 8 * k) /\
        st' = State (key_pool st ++
                     [KeyPool.Row (next_id (key_pool st)) code true])
                    (url_mapping st) (cache st) (rng_pos st + 8 * S k)).
Proof.
  induction fuel as [|fuel IH]; intros st code st' Hrun; [discriminate|].
  destruct (first_unused (key_pool st)) as [[i e]|] eqn:Hfree.
  - rewrite (allocate_key_claim _ _ _ _ Hfree) in Hrun.
    injection Hrun as <- <-. left. eauto.
  - right. split; [reflexivity|].
    destruct (decide (code_at rand (rng_pos st) ∈ codes (key_pool st)))
      as [Hdup|Hnew].
    + rewrite allocate_key_conflict in Hrun by assumption.
      apply IH in Hrun as [(i & e & Hfree' & _)|(_ & k & Hk & Hfresh & -> & ->)].
      { cbn [key_pool with_rng_pos] in Hfree'. congruence. }
      exists (S k). split; [lia|].
      split; [exact (proj1 (first_fresh_next st k Hdup) Hfresh)|].
      cbn [key_pool url_mapping cache rng_pos with_rng_pos].
      replace (rng_pos st + 8 + 8 * k)%nat with (rng_pos st + 8 * S k)%nat
        by lia.
      split; [reflexivity|]. f_equal. lia.
    + rewrite allocate_key_mint in Hrun by assumption.
      injection Hrun as <- <-. exists 0%nat. split; [lia|].
      replace (rng_pos st + 8 * 0)%nat with (rng_pos st) by lia.
      split; [|split; [reflexivity|f_equal; lia]].
      split; [intros j Hj; lia|].
      replace (rng_pos st + 8 * 0)%nat with (rng_pos st) by lia. exact Hnew.
Qed.

(** The only exception the commit of an allocation meets is the one the
    function catches. *)
Lemma allocate_key_no_raise (fuel : nat) : forall (st : state) e st',
  allocate_key rand fuel st <> Raise e st'.
Proof.
  induction fuel as [|fuel IH]; intros st e st'; [discriminate|].
  destruct (first_unused (key_pool st)) as [[i r]|] eqn:Hfree.
  - by rewrite (allocate_key_claim _ _ _ _ Hfree).
  - destruct (decide (code_at rand (rng_pos st) ∈ codes (key_pool st))).
    + rewrite allocate_key_conflict by assumption. apply IH.
    + by rewrite allocate_key_mint.
Qed.

Lemma first_unused_None (pool : list KeyPool.t) :
  first_unused pool = None <-> (forall e, e ∈ pool -> KeyPool.used e = true).
Proof.
  unfold first_unused. rewrite list_find_None, Forall_forall.
  split; intros H e He; specialize (H e He).
  - by destruct (KeyPool.used e).
  - by rewrite H.
Qed.

Lemma first_unused_Some (pool : list KeyPool.t) i e :
  first_unused pool = Some (i, e) ->
  pool !! i = Some e /\ KeyPool.used e = false.
Proof.
  unfold first_unused. intros (Hi & Hfree & _)%list_find_Some.
  split; [exact Hi|]. by destruct (KeyPool.used e).
Qed.

Lemma string_length_of_list (l : list ascii) :
  String.length (string_of_list_ascii l) = length l.
Proof. induction l as [|c l IH]; cbn; [reflexivity|]. by rewrite IH. Qed.

Lemma picks_length population pos k : length (picks rand population pos k) = k.
Proof. unfold picks. by rewrite length_fmap, length_seq. Qed.

Lemma picks_from population pos k c :
  population <> [] -> c ∈ picks rand population pos k -> c ∈ population.
Proof.
  intros Hne. unfold picks. intros (j & -> & _)%list_elem_of_fmap.
  apply list_elem_of_In, nth_In, Nat.mod_upper_bound.
  by destruct population.
Qed.

(** A generated code has eight characters, all letters or digits. *)
Lemma code_at_shape (pos : nat) :
  String.length (code_at rand pos) = 8%nat /\
  forallb is_alnum (list_ascii_of_string (code_at rand pos)) = true.
Proof.
  unfold code_at. split.
  - by rewrite string_length_of_list, picks_length.
  - rewrite list_ascii_of_string_of_list_ascii. apply forallb_forall.
    intros c Hc. apply bool_decide_eq_true_2.
    apply list_elem_of_In in Hc. by eapply picks_from in Hc.
Qed.


(** C2: when the pool has a free row, [allocate_key] returns the code of a
    row that was free and marks that row used; when every row is used it
    returns a new code of eight letters and digits, the first drawn that
    the pool does not have, inserted as a new row; either way the row of
    the returned code is marked used when the call returns. *)
Theorem allocate_key_claims_or_mints (st : state) :
  ((exists e, e ∈ key_pool st /\ KeyPool.used e = false) ->
   exists i e,
     key_pool st !! i = Some e /\ KeyPool.used e = false /\
     forall fuel,
       allocate_key rand (S fuel) st
       = Ok (KeyPool.short_code e)
            (with_key_pool (<[i := KeyPool.set_used true e]> (key_pool st)) st))
  /\
  ((forall e, e ∈ key_pool st -> KeyPool.used e = true) ->
   forall k, first_fresh rand st k ->
   exists code,
     String.length code = 8%nat /\
     forallb is_alnum (list_ascii_of_string code) = true /\
     (code ∉ codes (key_pool st)) /\
     forall fuel, (k < fuel)%nat ->
       allocate_key rand fuel st
       = Ok code
            (State (key_pool st ++
                    [KeyPool.Row (next_id (key_pool st)) code true])
                   (url_mapping st) (cache st) (rng_pos st + 8 * S k)))
  /\
  (forall fuel code st',
     allocate_key rand fuel st = Ok code st' ->
     exists e, e ∈ key_pool st' /\
       KeyPool.short_code e = code /\ KeyPool.used e = true).
Proof.
  split; [|split].
  - intros (e0 & Hin & Hfree).
    destruct (first_unused (key_pool st)) as [[i e]|] eqn:Hfind.
    + destruct (first_unused_Some _ _ _ Hfind) as [Hi He].
      exists i, e. split; [exact Hi|]. split; [exact He|].
      intros fuel. by apply allocate_key_claim.
    + rewrite (proj1 (first_unused_None _) Hfind e0 Hin) in Hfree.
      discriminate.
  - intros Hall%first_unused_None k Hfresh.
    exists (code_at rand (rng_pos st + 8 * k)).
    destruct (code_at_shape (rng_pos st + 8 * k)) as [Hlen Halnum].
    split; [exact Hlen|]. split; [exact Halnum|].
    split; [apply Hfresh|].
    by apply allocate_key_retry.
  - intros fuel code st' Hrun.
    apply allocate_key_inv in Hrun
      as [(i & e & Hfind & -> & ->)|(_ & k & _ & _ & _ & ->)].
    + destruct (first_unused_Some _ _ _ Hfind) as [Hi He].
      exists (KeyPool.set_used true e). cbn [key_pool with_key_pool].
      split; [|done].
      apply list_elem_of_insert. by eapply lookup_lt_Some.
    + exists (KeyPool.Row (next_id (key_pool st)) code true).
      cbn [key_pool]. split; [|done]. set_solver.
Qed.

(** ** Recycling *)

Lemma with_key_pool_same (st : state) : with_key_pool (key_pool st) st = st.
Proof. by destruct st. Qed.

Lemma with_url_mapping_same (st : state) :
  with_url_mapping (url_mapping st) st = st.
Proof. by destruct st. Qed.

Lemma recycle_key_run (commit_ok : bool) (c : string) (st : state) :
  recycle_key commit_ok c st
  = Ok tt (if commit_ok then with_key_pool (release c (key_pool st)) st
           else st).
Proof.
  unfold recycle_key, bind. rewrite query_slot. unfold release.
  destruct (slot_of c (key_pool st)) as [[i e]|].
  - by destruct commit_ok.
  - unfold ret. rewrite with_key_pool_same. by destruct commit_ok.
Qed.

Lemma slot_of_Some (c : string) (pool : list KeyPool.t) i e :
  slot_of c pool = Some (i, e) <->
  pool !! i = Some e /\ KeyPool.short_code e = c /\
  forall j y, pool !! j = Some y -> (j < i)%nat -> KeyPool.short_code y <> c.
Proof.
  unfold slot_of. rewrite list_find_Some.
  split; intros (Hi & He & Hfirst); (split; [exact Hi|]); split.
  - by apply bool_decide_eq_true_1 in He.
  - intros j y Hj Hlt Hy. apply (Hfirst j y Hj Hlt).
    by apply bool_decide_eq_true_2.
  - by apply bool_decide_eq_true_2.
  - intros j y Hj Hlt Hy%bool_decide_eq_true_1. by apply (Hfirst j y Hj Hlt).
Qed.

Lemma slot_of_None (c : string) (pool : list KeyPool.t) :
  slot_of c pool = None <-> c ∉ codes pool.
Proof.
  unfold slot_of, codes. rewrite list_find_None, Forall_forall. split.
  - intros H (e & -> & He)%list_elem_of_fmap. apply (H e He).
    by apply bool_decide_eq_true_2.
  - intros H e He Hc%bool_decide_eq_true_1. apply H.
    apply list_elem_of_fmap. eauto.
Qed.




(** ** The sweep *)

Lemma delete_one_run (oid : nat) (st : state) :
  delete_one oid st
  = Ok tt (with_url_mapping (remove_id oid (url_mapping st)) st).
Proof.
  unfold delete_one, modify, remove_id.
  destruct (list_find _ (url_mapping st)) as [[i d]|]; [reflexivity|].
  by rewrite with_url_mapping_same.
Qed.

Lemma cleanup_body_run (commit_ok : nat -> bool) (i : nat) (d : Doc.t)
    (st : state) :
  cleanup_body commit_ok i d st
  = Ok tt (State (if commit_ok i
                  then release (Doc.short_code d) (key_pool st)
                  else key_pool st)
                 (remove_id (Doc._id d) (url_mapping st))
                 (cache st) (rng_pos st)).
Proof.
  unfold cleanup_body, bind. rewrite delete_one_run, recycle_key_run.
  by destruct (commit_ok i).
Qed.

(** The loop of the sweep runs to its end, whatever the commits do. *)
Lemma cleanup_loop_run (commit_ok : nat -> bool) (docs : list Doc.t) :
  forall (i : nat) (st : state),
    for_each i docs (cleanup_body commit_ok) st
    = Ok tt (State (release_all commit_ok i docs (key_pool st))
                   (remove_all docs (url_mapping st))
                   (cache st) (rng_pos st)).
Proof.
  induction docs as [|d docs IH]; intros i st.
  - by destruct st.
  - cbn [for_each]. unfold bind at 1. rewrite cleanup_body_run, IH.
    reflexivity.
Qed.

Lemma filter_all {A} (P : A -> Prop) `{forall x, Decision (P x)} (l : list A) :
  (forall x, x ∈ l -> P x) -> filter P l = l.
Proof.
  induction l as [|x l IH]; intros Hall; [reflexivity|].
  rewrite filter_cons_True by (apply Hall; left).
  f_equal. apply IH. intros y Hy. apply Hall. by right.
Qed.

Lemma remove_id_filter (oid : nat) (m : list Doc.t) :
  NoDup (Doc._id <$> m) ->
  remove_id oid m = filter (fun x => Doc._id x <> oid) m.
Proof.
  unfold remove_id. induction m as [|x m IH]; intros Hnd; [reflexivity|].
  rewrite fmap_cons in Hnd. apply NoDup_cons in Hnd as [Hx Hnd].
  destruct (decide (Doc._id x = oid)) as [<-|Hne].
  - rewrite filter_cons_False by tauto.
    rewrite filter_all.
    + cbn [list_find]. by rewrite decide_True.
    + intros y Hy Heq. apply Hx. rewrite <- Heq.
      by apply list_elem_of_fmap_2.
  - rewrite filter_cons_True by done. rewrite <- (IH Hnd).
    cbn [list_find]. rewrite decide_False by done.
    by destruct (list_find _ m) as [[i y]|].
Qed.

Lemma filter_ext_in {A} (P Q : A -> Prop) `{forall x, Decision (P x)}
    `{forall x, Decision (Q x)} (l : list A) :
  (forall x, x ∈ l -> P x <-> Q x) -> filter P l = filter Q l.
Proof.
  induction l as [|x l IH]; intros Hext; [reflexivity|].
  assert (Hx : P x <-> Q x) by (apply Hext; left).
  assert (Hl : filter P l = filter Q l).
  { apply IH. intros y Hy. apply Hext. by right. }
  destruct (decide (P x)) as [HP|HP].
  - rewrite !filter_cons_True by tauto. by rewrite Hl.
  - rewrite !filter_cons_False by tauto. exact Hl.
Qed.

Lemma NoDup_fmap_filter {A B} (f : A -> B) (P : A -> Prop)
    `{forall x, Decision (P x)} (l : list A) :
  NoDup (f <$> l) -> NoDup (f <$> filter P l).
Proof.
  induction l as [|x l IH]; intros Hnd; [constructor|].
  rewrite fmap_cons in Hnd. apply NoDup_cons in Hnd as [Hx Hnd].
  destruct (decide (P x)).
  - rewrite filter_cons_True by done. rewrite fmap_cons.
    apply NoDup_cons. split; [|by apply IH].
    intros (y & Heq & Hy)%list_elem_of_fmap.
    apply list_elem_of_filter in Hy as [_ Hy].
    apply Hx. rewrite Heq. by apply list_elem_of_fmap_2.
  - rewrite filter_cons_False by done. by apply IH.
Qed.

Lemma remove_all_cons (d : Doc.t) (docs m : list Doc.t) :
  remove_all (d :: docs) m = remove_all docs (remove_id (Doc._id d) m).
Proof. reflexivity. Qed.

Lemma remove_all_filter (docs m : list Doc.t) :
  NoDup (Doc._id <$> m) ->
  remove_all docs m = filter (fun x => Doc._id x ∉ Doc._id <$> docs) m.
Proof.
  revert m. induction docs as [|d docs IH]; intros m Hnd.
  - symmetry. apply filter_all. intros x _. apply not_elem_of_nil.
  - rewrite remove_all_cons, remove_id_filter by done.
    rewrite IH by by apply NoDup_fmap_filter.
    rewrite list_filter_filter. apply filter_ext_in.
    intros x _. rewrite fmap_cons, not_elem_of_cons. tauto.
Qed.

(** Deleting, one [_id] at a time, the documents a filter selects leaves
    the documents it does not select. *)
Lemma remove_all_selected (P : Doc.t -> Prop) `{forall x, Decision (P x)}
    (m : list Doc.t) :
  NoDup (Doc._id <$> m) ->
  remove_all (filter P m) m = filter (fun x => ~ P x) m.
Proof.
  intros Hnd. rewrite remove_all_filter by done.
  apply filter_ext_in. intros x Hx. split.
  - intros Hid HP. apply Hid. apply list_elem_of_fmap_2.
    by apply list_elem_of_filter.
  - intros HnP (y & Heq & Hy)%list_elem_of_fmap.
    apply list_elem_of_filter in Hy as [HPy Hy].
    apply list_elem_of_lookup in Hx as [i Hi], Hy as [j Hj].
    assert (i = j) as ->.
    { eapply NoDup_lookup; [exact Hnd| |].
      - by rewrite list_lookup_fmap, Hi.
      - by rewrite list_lookup_fmap, Hj, Heq. }
    congruence.
Qed.

Lemma codes_release (c : string) (pool : list KeyPool.t) :
  codes (release c pool) = codes pool.
Proof.
  unfold release, codes.
  destruct (slot_of c pool) as [[i e]|] eqn:Hslot; [|reflexivity].
  apply slot_of_Some in Hslot as [Hi _].
  rewrite list_fmap_insert. apply list_insert_id.
  by rewrite list_lookup_fmap, Hi.
Qed.

(** Under the unique constraint, recycling a code frees exactly the rows
    that carry it. *)
Lemma release_unique (c : string) (pool : list KeyPool.t) :
  NoDup (codes pool) ->
  release c pool = freed_if_in [c] <$> pool.
Proof.
  intros Hnd. unfold release.
  destruct (slot_of c pool) as [[i e]|] eqn:Hslot.
  - apply slot_of_Some in Hslot as (Hi & He & _).
    apply list_eq. intros j. rewrite list_lookup_fmap.
    destruct (decide (j = i)) as [->|Hne].
    + rewrite list_lookup_insert_eq by by eapply lookup_lt_Some.
      rewrite Hi. cbn. unfold freed_if_in.
      rewrite bool_decide_eq_true_2; [done|]. rewrite He. by left.
    + rewrite list_lookup_insert_ne by done.
      destruct (pool !! j) as [y|] eqn:Hj; [|done]. cbn. f_equal.
      unfold freed_if_in. rewrite bool_decide_eq_false_2; [done|].
      intros Hy%list_elem_of_singleton. apply Hne.
      eapply NoDup_lookup; [exact Hnd| |].
      * unfold codes. by rewrite list_lookup_fmap, Hj.
      * unfold codes. rewrite list_lookup_fmap, Hi. cbn. congruence.
  - apply slot_of_None in Hslot. symmetry.
    rewrite <- (list_fmap_id pool) at 2. apply list_fmap_ext.
    intros j y Hj. unfold freed_if_in.
    rewrite bool_decide_eq_false_2; [done|].
    intros Hy%list_elem_of_singleton. apply Hslot. rewrite <- Hy.
    unfold codes. apply list_elem_of_fmap_2. by eapply list_elem_of_lookup_2.
Qed.

Lemma freed_if_in_app (cs1 cs2 : list string) (e : KeyPool.t) :
  freed_if_in cs2 (freed_if_in cs1 e) = freed_if_in (cs1 ++ cs2) e.
Proof.
  unfold freed_if_in.
  destruct (bool_decide_reflect (KeyPool.short_code e ∈ cs1)) as [H1|H1].
  - cbn. rewrite (bool_decide_eq_true_2 (_ ∈ cs1 ++ cs2))
      by (apply elem_of_app; by left).
    by destruct (bool_decide _).
  - destruct (bool_decide_reflect (KeyPool.short_code e ∈ cs2)) as [H2|H2].
    + by rewrite bool_decide_eq_true_2 by (apply elem_of_app; by right).
    + rewrite bool_decide_eq_false_2; [done|].
      rewrite elem_of_app. tauto.
Qed.

Lemma freed_if_in_nil (e : KeyPool.t) : freed_if_in [] e = e.
Proof.
  unfold freed_if_in. rewrite bool_decide_eq_false_2; [done|].
  apply not_elem_of_nil.
Qed.

(** Under the unique constraint, the loop of the sweep frees exactly the
    rows whose code it recycled with a commit that went through. *)
Lemma release_all_unique (commit_ok : nat -> bool) (docs : list Doc.t) :
  forall (i : nat) (pool : list KeyPool.t),
    NoDup (codes pool) ->
    release_all commit_ok i docs pool
    = freed_if_in (committed commit_ok i docs) <$> pool.
Proof.
  induction docs as [|d docs IH]; intros i pool Hnd; cbn [release_all committed].
  - rewrite <- (list_fmap_id pool) at 1. apply list_fmap_ext.
    intros j y _. by rewrite freed_if_in_nil.
  - destruct (commit_ok i).
    + rewrite IH by by rewrite codes_release.
      rewrite release_unique by done. rewrite <- list_fmap_compose.
      apply list_fmap_ext. intros j y _. cbn. apply freed_if_in_app.
    + by rewrite IH.
Qed.

Lemma cleanup_expired_urls_run (commit_ok : nat -> bool) (now : datetime.t)
    (st : state) :
  let expired_docs := filter (fun d => lt_now now d) (url_mapping st) in
  cleanup_expired_urls commit_ok now st
  = Ok tt (State (release_all commit_ok 0 expired_docs (key_pool st))
                 (remove_all expired_docs (url_mapping st))
                 (match expired_docs with [] => cache st | _ :: _ => [] end)
                 (rng_pos st)).
Proof.
  intros expired_docs. unfold cleanup_expired_urls, bind at 1.
  unfold find_expired, bind at 1, get, ret. fold expired_docs.
  unfold bind. rewrite cleanup_loop_run.
  by destruct expired_docs.
Qed.


Lemma lt_now_spec (now : datetime.t) (d : Doc.t) :
  lt_now now d <-> exists t, Doc.expires_at d = Some t /\ t < now.
Proof.
  unfold lt_now. destruct (Doc.expires_at d) as [t|].
  - rewrite Is_true_true, Z.ltb_lt. split; [eauto|].
    by intros (? & [= <-] & ?).
  - split; [done|]. by intros (? & ? & _).
Qed.


(** ** Lookups and the resolve route *)

Lemma get_url_mapping_run (c : string) (st : state) :
  get_url_mapping c st = Ok (looked_up c st) (with_cache (cache_after c st) st).
Proof.
  unfold get_url_mapping, bind at 1, get, looked_up, cache_after.
  destruct (list_find _ (cache st)) as [[i [k v]]|]; reflexivity.
Qed.



(** C10: the expiry test is strict.  For a mapping found with expiry [t]
    the answer is 410 exactly when [now] is after [t], and the 302 redirect
    exactly when it is not; so at [now = t] it is the redirect.  A mapping
    with a null expiry is always answered with the redirect. *)
Theorem expiry_check_is_strict (c : string) (st : state) (url : string) :
  (forall t now, looked_up c st = Some (url, Some t) ->
     (redirect_short_url c now st
      = Ok (Json 410 [("error", "URL expired")])
           (with_cache (cache_after c st) st) <-> t < now) /\
     (redirect_short_url c now st
      = Ok (Redirect 302 url) (with_cache (cache_after c st) st)
      <-> now <= t) /\
     redirect_short_url c t st
     = Ok (Redirect 302 url) (with_cache (cache_after c st) st)) /\
  (forall now, looked_up c st = Some (url, None) ->
     redirect_short_url c now st
     = Ok (Redirect 302 url) (with_cache (cache_after c st) st)).
Proof.
  split.
  - intros t now Hfound.
    assert (Hat : forall now',
      redirect_short_url c now' st
      = Ok (if now' >? t then Json 410 [("error", "URL expired")]
            else Redirect 302 url) (with_cache (cache_after c st) st)).
    { intros now'. unfold redirect_short_url, bind.
      rewrite get_url_mapping_run, Hfound. by destruct (now' >? t). }
    split; [|split].
    + rewrite Hat. destruct (Z.gtb_spec now t); split; (done || lia).
    + rewrite Hat. destruct (Z.gtb_spec now t); split; (done || lia).
    + rewrite Hat. by rewrite Z.gtb_ltb, Z.ltb_irrefl.
  - intros now Hfound. unfold redirect_short_url, bind.
    by rewrite get_url_mapping_run, Hfound.
Qed.

(** ** The create route *)



Lemma allocate_key_frame (fuel : nat) (st : state) code st' :
  allocate_key rand fuel st = Ok code st' ->
  url_mapping st' = url_mapping st /\ cache st' = cache st.
Proof.
  intros [(i & e & _ & _ & ->)|(_ & k & _ & _ & _ & ->)]%allocate_key_inv;
    by split.
Qed.

(** Every run of [shorten_url], by the request and the allocation. *)
Lemma shorten_url_run (fuel : nat) (data : Request.t) (now : datetime.t)
    (st : state) :
  shorten_url rand fuel data now st
  = if negb (truthy (Request.long_url data))
    then Ok (Json 400 [("error", "No URL provided")]) st
    else
      let url := default "" (Request.long_url data) in
      let days := default 365 (Request.expires_in_days data) in
      let expires_at := now + days * datetime.us_per_day in
      if negb (Z.abs days <=? 999999999) || negb (datetime.in_range expires_at)
      then Raise OverflowError st
      else
        match allocate_key rand fuel st with
        | Ok code st1 =>
            Ok (Json 201 [("short_url", BASE_URL +:+ code);
                          ("long_url", url);
                          ("expires_at", datetime.isoformat expires_at)])
               (State (key_pool st1)
                      (url_mapping st1
                       ++ [new_doc (url_mapping st1) code url (Some expires_at)])
                      [] (rng_pos st1))
        | Raise e st1 => Raise e st1
        | OutOfFuel => OutOfFuel
        end.
Proof.
  unfold shorten_url. destruct (negb (truthy _)); [reflexivity|].
  cbv zeta. unfold datetime.timedelta.
  destruct (Z.abs _ <=? 999999999); [|reflexivity].
  cbn [or_raise negb orb]. unfold bind at 1, ret at 1.
  unfold datetime.add.
  destruct (datetime.in_range _); [|reflexivity].
  cbn [or_raise negb]. unfold bind at 1, ret at 1. unfold bind at 1.
  by destruct (allocate_key rand fuel st).
Qed.




(** ** Writes and the cache *)



(** ** The order of the sweep *)


(** In a collection with unique codes, two documents with one code are
    one document. *)
Lemma unique_code (m : list Doc.t) (d d' : Doc.t) :
  NoDup (Doc.short_code <$> m) -> d ∈ m -> d' ∈ m ->
  Doc.short_code d' = Doc.short_code d -> d' = d.
Proof.
  intros Hnd [i Hi]%list_elem_of_lookup [j Hj]%list_elem_of_lookup Heq.
  assert (j = i) as ->; [|congruence].
  eapply NoDup_lookup; [exact Hnd| |].
  - by rewrite list_lookup_fmap, Hj.
  - by rewrite list_lookup_fmap, Hi, Heq.
Qed.




(** ** The state stays consistent *)


Lemma unique_row (pool : list KeyPool.t) (e e' : KeyPool.t) :
  NoDup (codes pool) -> e ∈ pool -> e' ∈ pool ->
  KeyPool.short_code e' = KeyPool.short_code e -> e' = e.
Proof.
  intros Hnd [i Hi]%list_elem_of_lookup [j Hj]%list_elem_of_lookup Heq.
  assert (j = i) as ->; [|congruence].
  eapply NoDup_lookup; [exact Hnd| |]; unfold codes.
  - by rewrite list_lookup_fmap, Hj.
  - by rewrite list_lookup_fmap, Hi, Heq.
Qed.

Lemma new_doc_fresh_id (m : list Doc.t) code url expires_at :
  Doc._id (new_doc m code url expires_at) ∉ Doc._id <$> m.
Proof. apply max_list_not_elem_of_gt. cbn. lia. Qed.

Lemma committed_among (commit_ok : nat -> bool) (docs : list Doc.t) c :
  forall i, c ∈ committed commit_ok i docs -> c ∈ Doc.short_code <$> docs.
Proof.
  induction docs as [|d docs IH]; intros i; cbn [committed]; [done|].
  rewrite fmap_cons, elem_of_app, elem_of_cons.
  intros [Hc|Hc]; [left|right; by eapply IH].
  destruct (commit_ok i); [by apply list_elem_of_singleton|].
  by apply not_elem_of_nil in Hc.
Qed.

(** Creating a mapping keeps the state consistent. *)
Lemma shorten_url_consistent (fuel : nat) (data : Request.t)
    (now : datetime.t) (st : state) r st' :
  consistent st ->
  shorten_url rand fuel data now st = Ok r st' ->
  consistent st'.
Proof.
  intros (Hids & Hpool & Hcodes & Hused) Hrun.
  rewrite shorten_url_run in Hrun.
  destruct (negb (truthy _)); [by injection Hrun as _ <-|].
  cbv zeta in Hrun. destruct (_ || _); [discriminate|].
  destruct (allocate_key rand fuel st) as [code st1| |] eqn:Halloc;
    [|discriminate..].
  injection Hrun as _ <-.
  destruct (allocate_key_frame _ _ _ _ Halloc) as [Hm _]. rewrite Hm.
  unfold consistent. cbn [url_mapping key_pool].
  assert (Hnew : (code ∉ Doc.short_code <$> url_mapping st) /\
            NoDup (codes (key_pool st1)) /\
            (forall e, e ∈ key_pool st -> KeyPool.used e = true ->
               e ∈ key_pool st1) /\
            exists e, e ∈ key_pool st1 /\
              KeyPool.short_code e = code /\ KeyPool.used e = true).
  { apply allocate_key_inv in Halloc
      as [(i & e & Hfind & -> & ->)|(Hnone & k & _ & [_ Hfresh] & -> & ->)].
    - destruct (first_unused_Some _ _ _ Hfind) as [Hi He].
      cbn [key_pool with_key_pool].
      split; [|split; [|split]].
      + intros (d & Hcode & Hd)%list_elem_of_fmap.
        destruct (Hused d Hd) as (e' & He' & Hcode' & Hused').
        assert (e' = e) as ->; [|congruence].
        eapply unique_row; eauto; [by eapply list_elem_of_lookup_2|congruence].
      + unfold codes. rewrite list_fmap_insert, list_insert_id; [done|].
        by rewrite list_lookup_fmap, Hi.
      + intros e' [j Hj]%list_elem_of_lookup Hused'.
        apply list_elem_of_lookup. exists j.
        rewrite list_lookup_insert_ne; [done|]. intros ->. congruence.
      + exists (KeyPool.set_used true e). split; [|done].
        apply list_elem_of_insert. by eapply lookup_lt_Some.
    - cbn [key_pool].
      split; [|split; [|split]].
      + intros (d & Hcode & Hd)%list_elem_of_fmap.
        destruct (Hused d Hd) as (e' & He' & Hcode' & _).
        apply Hfresh. rewrite Hcode, <- Hcode'. unfold codes.
        by apply list_elem_of_fmap_2.
      + unfold codes. rewrite fmap_app, list_fmap_singleton. apply NoDup_app.
        split; [exact Hpool|]. split; [|apply NoDup_singleton].
        intros c Hc ->%list_elem_of_singleton. by apply Hfresh.
      + intros e He _. apply elem_of_app. by left.
      + eexists. split; [apply elem_of_app; right; by left|done]. }
  destruct Hnew as (Hcode & Hpool1 & Hkept & e1 & He1 & Hcode1 & Hused1).
  split; [|split; [exact Hpool1|split]].
  - rewrite fmap_app. apply NoDup_app. split; [exact Hids|].
    split; [|apply NoDup_singleton].
    intros x Hx Hx'%list_elem_of_singleton.
    eapply new_doc_fresh_id. by rewrite <- Hx'.
  - rewrite fmap_app. apply NoDup_app. split; [exact Hcodes|].
    split; [|apply NoDup_singleton].
    intros c Hc Hc'%list_elem_of_singleton. cbn in Hc'. congruence.
  - intros d [Hd|Hd%list_elem_of_singleton]%elem_of_app.
    + destruct (Hused d Hd) as (e & He & Hce & Hue). eauto.
    + subst d. cbn. eauto.
Qed.

(** A sweep keeps the state consistent, whatever its commits do. *)
Lemma cleanup_expired_urls_consistent (commit_ok : nat -> bool)
    (now : datetime.t) (st : state) st' :
  consistent st ->
  cleanup_expired_urls commit_ok now st = Ok tt st' ->
  consistent st'.
Proof.
  intros (Hids & Hpool & Hcodes & Hused) Hrun.
  rewrite cleanup_expired_urls_run in Hrun. cbv zeta in Hrun.
  injection Hrun as <-. unfold consistent. cbn [url_mapping key_pool].
  rewrite remove_all_selected by done.
  rewrite release_all_unique by done.
  split; [by apply NoDup_fmap_filter|].
  split.
  { unfold codes. rewrite <- list_fmap_compose.
    erewrite list_fmap_ext; [exact Hpool|].
    intros j e _. cbn. unfold freed_if_in. by destruct (bool_decide _). }
  split; [by apply NoDup_fmap_filter|].
  intros d [Hlive Hd]%list_elem_of_filter.
  destruct (Hused d Hd) as (e & He & Hce & Hue).
  exists e. split; [|done].
  apply list_elem_of_fmap. exists e. split; [|exact He].
  unfold freed_if_in. rewrite bool_decide_eq_false_2; [done|].
  intros (d2 & Hc2 & [Hexp Hd2]%list_elem_of_filter)%committed_among
    %list_elem_of_fmap.
  apply Hlive. replace d with d2; [exact Hexp|].
  eapply unique_code; eauto. congruence.
Qed.

(** A lookup changes neither store. *)
Lemma redirect_short_url_consistent (c : string) (now : datetime.t)
    (st : state) r st' :
  consistent st -> redirect_short_url c now st = Ok r st' -> consistent st'.
Proof.
  intros Hst Hrun. unfold redirect_short_url, bind in Hrun.
  rewrite get_url_mapping_run in Hrun.
  assert (st' = with_cache (cache_after c st) st) as ->; [|exact Hst].
  destruct (looked_up c st) as [[url [t|]]|]; [destruct (now >? t)|..];
    by injection Hrun as _ <-.
Qed.

(** ** What every reachable state satisfies *)

(** A run of [shorten_url] that does not answer 201 leaves the state as it
    found it; one that does leaves an empty cache. *)
Lemma shorten_url_final (fuel : nat) (data : Request.t) (now : datetime.t)
    (st st' : state) :
  final_state (shorten_url rand fuel data now st) = Some st' ->
  st' = st \/
  exists body, shorten_url rand fuel data now st = Ok (Json 201 body) st' /\
               cache st' = [].
Proof.
  rewrite shorten_url_run.
  destruct (negb (truthy _)); [intros [= <-]; by left|]. cbv zeta.
  destruct (_ || _); [intros [= <-]; by left|].
  destruct (allocate_key rand fuel st) as [code st1|e st1|] eqn:Halloc.
  - intros [= <-]. right. by eexists.
  - by apply allocate_key_no_raise in Halloc.
  - discriminate.
Qed.

Lemma cleanup_expired_urls_final (commit_ok : nat -> bool)
    (now : datetime.t) (st st' : state) :
  final_state (cleanup_expired_urls commit_ok now st) = Some st' ->
  cleanup_expired_urls commit_ok now st = Ok tt st' /\
  (st' = st \/ cache st' = []).
Proof.
  rewrite cleanup_expired_urls_run. cbv zeta. intros [= <-].
  split; [reflexivity|].
  destruct (filter _ (url_mapping st)); [left; by destruct st|by right].
Qed.

Lemma redirect_short_url_final (c : string) (now : datetime.t)
    (st st' : state) :
  final_state (redirect_short_url c now st) = Some st' ->
  st' = with_cache (cache_after c st) st.
Proof.
  unfold redirect_short_url, bind. rewrite get_url_mapping_run.
  destruct (looked_up c st) as [[url [t|]]|]; [destruct (now >? t)|..];
    by intros [= <-].
Qed.

Lemma step_consistent (st st' : state) :
  consistent st -> step rand st st' -> consistent st'.
Proof.
  intros Hst [fuel data now st1 Hrun|c now st1 Hrun|commit_ok now st1 Hrun].
  - apply shorten_url_final in Hrun as [->|(body & Hrun & _)]; [done|].
    by eapply shorten_url_consistent.
  - by apply redirect_short_url_final in Hrun as ->.
  - apply cleanup_expired_urls_final in Hrun as [Hrun _].
    by eapply cleanup_expired_urls_consistent.
Qed.




Lemma NoDup_take {A} (l : list A) (n : nat) : NoDup l -> NoDup (take n l).
Proof.
  intros Hnd. rewrite <- (take_drop n l) in Hnd.
  by apply NoDup_app in Hnd as [? _].
Qed.

Lemma NoDup_delete {A} (l : list A) (i : nat) : NoDup l -> NoDup (delete i l).
Proof. intros Hnd. eapply sublist_NoDup; [exact Hnd|apply sublist_delete]. Qed.

Lemma cache_after_bounded (c : string) (st : state) :
  cache_bounded st -> cache_bounded (with_cache (cache_after c st) st).
Proof.
  intros [Hlen Hkeys]. unfold cache_bounded, cache_after.
  cbn [cache with_cache].
  destruct (list_find _ (cache st)) as [[i [k0 v0]]|] eqn:Hfind.
  - apply list_find_Some in Hfind as (Hi & Hk & _). cbn in Hk. subst k0.
    split.
    + cbn [length]. rewrite length_delete by by eexists. 
      apply lookup_lt_Some in Hi. lia.
    + rewrite fmap_cons, list_fmap_delete. cbn [fst].
      apply NoDup_cons. split; [|by apply NoDup_delete].
      assert (Hci : (cache st).*1 !! i = Some c)
        by by rewrite list_lookup_fmap, Hi.
      intros [j Hj]%list_elem_of_lookup.
      destruct (decide (j < i)%nat).
      * rewrite list_lookup_delete_lt in Hj by done.
        pose proof (NoDup_lookup _ _ _ _ Hkeys Hj Hci). lia.
      * rewrite list_lookup_delete_ge in Hj by lia.
        pose proof (NoDup_lookup _ _ _ _ Hkeys Hj Hci). lia.
  - split.
    + rewrite length_take. lia.
    + rewrite fmap_take. apply NoDup_take. rewrite fmap_cons.
      apply NoDup_cons. split; [|exact Hkeys]. cbn [fst].
      apply list_find_None in Hfind. rewrite Forall_forall in Hfind.
      intros ([k v] & Hk & Hin)%list_elem_of_fmap. cbn in Hk.
      by apply (Hfind _ Hin).
Qed.

Lemma cache_bounded_cold (st : state) : cache st = [] -> cache_bounded st.
Proof.
  intros Hcold. unfold cache_bounded. rewrite Hcold.
  split; [cbn; lia|constructor].
Qed.

Lemma step_cache_bounded (st st' : state) :
  cache_bounded st -> step rand st st' -> cache_bounded st'.
Proof.
  intros Hst [fuel data now st1 Hrun|c now st1 Hrun|commit_ok now st1 Hrun].
  - apply shorten_url_final in Hrun as [->|(body & _ & Hcold)]; [done|].
    by apply cache_bounded_cold.
  - apply redirect_short_url_final in Hrun as ->.
    by apply cache_after_bounded.
  - apply cleanup_expired_urls_final in Hrun as [_ [->|Hcold]]; [done|].
    by apply cache_bounded_cold.
Qed.

(** X1: in every state the service reaches, documents have distinct
    [_id]s, rows have distinct codes, no two mappings share a code, and
    the code of every mapping has a row marked used. *)
Theorem reachable_states_are_consistent (st : state) :
  reachable rand st -> consistent st.
Proof.
  induction 1 as [pos|st st' _ IH Hstep].
  - repeat split; try constructor.
    intros d Hd. by apply not_elem_of_nil in Hd.
  - by eapply step_consistent.
Qed.




(** X3: in every state the service reaches, the cache holds at most 1000
    entries, and at most one for a code. *)
Theorem reachable_cache_is_bounded (st : state) :
  reachable rand st ->
  (length (cache st) <= 1000)%nat /\ NoDup (cache st).*1.
Proof.
  induction 1 as [pos|st st' _ IH Hstep].
  - split; [cbn; lia|constructor].
  - by eapply step_cache_bounded.
Qed.

(** ** How the operations compose *)





(** X6: a recycled code is the next one handed out.  When every row is
    used and [c] has a row, recycling [c] makes its row the one free row,
    and the next [allocate_key] returns [c] and leaves the pool as it was
    before the recycling. *)
Theorem recycled_code_is_reallocated (c : string) (st : state) i e :
  first_unused (key_pool st) = None ->
  slot_of c (key_pool st) = Some (i, e) ->
  exists st1,
    recycle_key true c st = Ok tt st1 /\
    first_unused (key_pool st1) = Some (i, KeyPool.set_used false e) /\
    forall fuel, allocate_key rand (S fuel) st1 = Ok c st.
Proof.
  intros Hall Hslot. rewrite recycle_key_run. eexists.
  split; [reflexivity|]. unfold release. rewrite Hslot.
  cbn [key_pool with_key_pool].
  pose proof (proj1 (first_unused_None _) Hall) as Hused.
  apply slot_of_Some in Hslot as (Hi & Hc & _).
  assert (Hlt : (i < length (key_pool st))%nat) by by eapply lookup_lt_Some.
  assert (Hfree : first_unused (<[i := KeyPool.set_used false e]> (key_pool st))
                  = Some (i, KeyPool.set_used false e)).
  { unfold first_unused. apply list_find_Some. split; [|split].
    - by apply list_lookup_insert_eq.
    - reflexivity.
    - intros j y Hj Hji. rewrite list_lookup_insert_ne in Hj by lia.
      rewrite (Hused y) by by eapply list_elem_of_lookup_2. discriminate. }
  split; [exact Hfree|]. intros fuel.
  rewrite (allocate_key_claim fuel
             (with_key_pool (<[i := KeyPool.set_used false e]> (key_pool st)) st)
             i (KeyPool.set_used false e) Hfree).
  cbn [key_pool with_key_pool]. rewrite list_insert_insert_eq.
  assert (KeyPool.set_used true (KeyPool.set_used false e) = e) as ->.
  { pose proof (Hused e (list_elem_of_lookup_2 _ _ _ Hi)) as He.
    destruct e as [n code u]. cbn in He. by subst u. }
  rewrite list_insert_id by done. rewrite <- Hc. by destruct st.
Qed.

Lemma allocate_key_row (fuel : nat) (st : state) code st' :
  NoDup (codes (key_pool st)) ->
  allocate_key rand fuel st = Ok code st' ->
  NoDup (codes (key_pool st')) /\
  exists e, e ∈ key_pool st' /\
    KeyPool.short_code e = code /\ KeyPool.used e = true.
Proof.
  intros Hnd [(i & e & Hfind & -> & ->)|(_ & k & _ & [_ Hfresh] & -> & ->)]
    %allocate_key_inv; cbn [key_pool with_key_pool].
  - destruct (first_unused_Some _ _ _ Hfind) as [Hi He]. split.
    + unfold codes. rewrite list_fmap_insert, list_insert_id; [done|].
      by rewrite list_lookup_fmap, Hi.
    + exists (KeyPool.set_used true e). split; [|done].
      apply list_elem_of_insert. by eapply lookup_lt_Some.
  - split.
    + unfold codes in *. rewrite fmap_app, list_fmap_singleton.
      apply NoDup_app. split; [exact Hnd|]. split; [|apply NoDup_singleton].
      intros c Hc ->%list_elem_of_singleton. by apply Hfresh.
    + eexists. split; [apply elem_of_app; right; by left|done].
Qed.

(** X7: two allocations in a row never hand out the same code, whatever
    the random generator draws: the second returns a code whose row was
    free or absent after the first, and the first left its row used. *)
Theorem successive_allocations_differ (fuel1 fuel2 : nat) (st : state)
    code1 st1 code2 st2 :
  NoDup (codes (key_pool st)) ->
  allocate_key rand fuel1 st = Ok code1 st1 ->
  allocate_key rand fuel2 st1 = Ok code2 st2 ->
  code1 <> code2.
Proof.
  intros Hnd Hfirst Hsecond.
  destruct (allocate_key_row _ _ _ _ Hnd Hfirst)
    as (Hnd1 & e1 & He1 & Hcode1 & Hused1).
  apply allocate_key_inv in Hsecond
    as [(i & e & Hfind & -> & _)|(_ & k & _ & [_ Hfresh] & -> & _)].
  - destruct (first_unused_Some _ _ _ Hfind) as [Hi He].
    intros Heq. assert (e1 = e) as ->; [|congruence].
    eapply unique_row; eauto; [by eapply list_elem_of_lookup_2|congruence].
  - intros Heq. apply Hfresh. rewrite <- Heq, <- Hcode1.
    unfold codes. by apply list_elem_of_fmap_2.
Qed.

Lemma filter_none {A} (P : A -> Prop) `{forall x, Decision (P x)} (l : list A) :
  (forall x, x ∈ l -> ~ P x) -> filter P l = [].
Proof.
  induction l as [|x l IH]; intros Hnone; [reflexivity|].
  rewrite filter_cons_False by (apply Hnone; left).
  apply IH. intros y Hy. apply Hnone. by right.
Qed.

(** X8: a sweep that finds nothing expired changes nothing: the pool, the
    collection and the cache, which it does not clear, are as they were. *)
Theorem sweep_without_expired_is_noop (commit_ok : nat -> bool)
    (now : datetime.t) (st : state) :
  (forall d t, d ∈ url_mapping st -> Doc.expires_at d = Some t -> now <= t) ->
  cleanup_expired_urls commit_ok now st = Ok tt st.
Proof.
  intros Hlive. rewrite cleanup_expired_urls_run. cbv zeta.
  replace (filter (fun d => lt_now now d) (url_mapping st)) with (@nil Doc.t).
  { by destruct st. }
  symmetry. apply filter_none.
  intros d Hd (t & Ht & Hlt)%lt_now_spec. specialize (Hlive d t Hd Ht). lia.
Qed.

(** X9: sweeping again changes nothing.  After a sweep at [now] over a
    collection with unique [_id]s, a second sweep at the same instant or
    an earlier one leaves the state as the first left it; in particular it
    does not try again the recycles whose commit failed. *)
Theorem sweep_again_is_noop (ok1 ok2 : nat -> bool) (now now2 : datetime.t)
    (st st1 : state) :
  NoDup (Doc._id <$> url_mapping st) ->
  cleanup_expired_urls ok1 now st = Ok tt st1 ->
  now2 <= now ->
  cleanup_expired_urls ok2 now2 st1 = Ok tt st1.
Proof.
  intros Hids Hrun Hle.
  rewrite cleanup_expired_urls_run in Hrun. cbv zeta in Hrun.
  injection Hrun as <-.
  rewrite cleanup_expired_urls_run. cbv zeta. cbn [url_mapping].
  rewrite remove_all_selected by done.
  replace (filter (fun d => lt_now now2 d) _) with (@nil Doc.t);
    [reflexivity|].
  symmetry. apply filter_none.
  intros d [Hlive _]%list_elem_of_filter (t & Ht & Hlt)%lt_now_spec.
  apply Hlive, lt_now_spec. exists t. split; [exact Ht|lia].
Qed.

(** ** Rows that are never freed *)

(** What a 201 leaves behind. *)
Lemma shorten_url_created (fuel : nat) (data : Request.t) (now : datetime.t)
    (st : state) body st' :
  shorten_url rand fuel data now st = Ok (Json 201 body) st' ->
  exists code st1 url expires_at,
    allocate_key rand fuel st = Ok code st1 /\
    st' = State (key_pool st1)
                (url_mapping st
                 ++ [new_doc (url_mapping st) code url (Some expires_at)])
                [] (rng_pos st1).
Proof.
  rewrite shorten_url_run.
  destruct (negb (truthy _)); [discriminate|]. cbv zeta.
  destruct (_ || _); [discriminate|].
  destruct (allocate_key rand fuel st) as [code st1| |] eqn:Halloc;
    [|discriminate..].
  intros [= _ <-].
  destruct (allocate_key_frame _ _ _ _ Halloc) as [-> _]. by eexists _, _, _, _.
Qed.

(** An allocation never hands out a code whose row is used, and it keeps
    that row. *)
Lemma allocate_key_keeps_used (fuel : nat) (st : state) code st1 e :
  NoDup (codes (key_pool st)) ->
  e ∈ key_pool st -> KeyPool.used e = true ->
  allocate_key rand fuel st = Ok code st1 ->
  code <> KeyPool.short_code e /\ e ∈ key_pool st1.
Proof.
  intros Hnd He Hused
    [(i & e' & Hfind & -> & ->)|(_ & k & _ & [_ Hfresh] & -> & ->)]
    %allocate_key_inv; cbn [key_pool with_key_pool].
  - destruct (first_unused_Some _ _ _ Hfind) as [Hi Hfree].
    assert (Hne : KeyPool.short_code e' <> KeyPool.short_code e).
    { intros Heq. assert (e' = e) as ->; [|congruence].
      eapply unique_row; eauto. by eapply list_elem_of_lookup_2. }
    split; [exact Hne|].
    apply list_elem_of_lookup in He as [j Hj].
    apply list_elem_of_lookup. exists j.
    rewrite list_lookup_insert_ne; [done|]. intros ->. congruence.
  - split; [|apply elem_of_app; by left].
    intros Heq. apply Hfresh. rewrite Heq. unfold codes.
    by apply list_elem_of_fmap_2.
Qed.

Lemma freed_if_in_other (cs : list string) (e : KeyPool.t) :
  KeyPool.short_code e ∉ cs -> freed_if_in cs e = e.
Proof. intros Hc. unfold freed_if_in. by rewrite bool_decide_eq_false_2. Qed.

Lemma step_leaked (c : string) (st st' : state) :
  consistent st -> leaked c st -> step rand st st' -> leaked c st'.
Proof.
  intros (Hids & Hpool & Hcodes & Hrows) [(e & He & Hc & Hused) Hnone]
    [fuel data now st1 Hrun|c' now st1 Hrun|commit_ok now st1 Hrun].
  - apply shorten_url_final in Hrun as [->|(body & Hrun & _)].
    { split; [by exists e|exact Hnone]. }
    apply shorten_url_created in Hrun
      as (code & st2 & url & expires_at & Halloc & ->).
    destruct (allocate_key_keeps_used _ _ _ _ _ Hpool He Hused Halloc)
      as [Hne He2].
    split; [by exists e|]. cbn [url_mapping].
    intros d [Hd|Hd%list_elem_of_singleton]%elem_of_app; [by apply Hnone|].
    subst d. cbn. congruence.
  - apply redirect_short_url_final in Hrun as ->.
    split; [by exists e|exact Hnone].
  - apply cleanup_expired_urls_final in Hrun as [Hrun _].
    rewrite cleanup_expired_urls_run in Hrun. cbv zeta in Hrun.
    injection Hrun as <-. unfold leaked. cbn [key_pool url_mapping].
    rewrite remove_all_selected by done.
    rewrite release_all_unique by done. split.
    + exists e. split; [|done]. apply list_elem_of_fmap. exists e.
      split; [|exact He]. symmetry. apply freed_if_in_other.
      intros (d & Hd & [_ Hin]%list_elem_of_filter)%committed_among
        %list_elem_of_fmap.
      apply (Hnone d Hin). congruence.
    + intros d [_ Hd]%list_elem_of_filter. by apply Hnone.
Qed.

(** X10: once a code is lost it stays lost.  From a consistent state in
    which a code has a used row and no mapping, no sequence of requests
    and sweeps frees the row or gives the code a mapping again. *)
Theorem leaked_code_stays_leaked (c : string) (st st' : state) :
  consistent st -> leaked c st -> rtc (step rand) st st' -> leaked c st'.
Proof.
  intros Hst Hleak Hsteps.
  induction Hsteps as [|st st1 st2 Hstep _ IH]; [done|].
  apply IH; [by eapply step_consistent|by eapply step_leaked].
Qed.

Lemma committed_lookup (commit_ok : nat -> bool) (docs : list Doc.t) c :
  forall i, c ∈ committed commit_ok i docs ->
  exists k d, docs !! k = Some d /\ Doc.short_code d = c /\
              commit_ok (i + k)%nat = true.
Proof.
  induction docs as [|d docs IH]; intros i; cbn [committed];
    [by intros ?%not_elem_of_nil|].
  intros [Hc|Hc]%elem_of_app.
  - destruct (commit_ok i) eqn:Hok; [|by apply not_elem_of_nil in Hc].
    apply list_elem_of_singleton in Hc as ->.
    exists 0%nat, d. replace (i + 0)%nat with i by lia. done.
  - destruct (IH _ Hc) as (k & d' & Hk & Hd' & Hok).
    exists (S k), d'. replace (i + S k)%nat with (S i + k)%nat by lia. done.
Qed.

(** X11: a recycle whose commit fails loses the code.  When the sweep, from
    a consistent state, deletes an expired mapping and the commit that
    would free its row fails, the sweep still returns, and it leaves the
    code with a used row and no mapping. *)
Theorem failed_recycle_leaks_code (commit_ok : nat -> bool)
    (now : datetime.t) (st st1 : state) (j : nat) (d : Doc.t) :
  consistent st ->
  filter (fun d => lt_now now d) (url_mapping st) !! j = Some d ->
  commit_ok j = false ->
  cleanup_expired_urls commit_ok now st = Ok tt st1 ->
  leaked (Doc.short_code d) st1.
Proof.
  intros (Hids & Hpool & Hcodes & Hrows) Hj Hfail Hrun.
  rewrite cleanup_expired_urls_run in Hrun. cbv zeta in Hrun.
  injection Hrun as <-. unfold leaked. cbn [key_pool url_mapping].
  rewrite remove_all_selected by done.
  rewrite release_all_unique by done.
  pose proof (list_elem_of_lookup_2 _ _ _ Hj) as [Hexp Hd]%list_elem_of_filter.
  destruct (Hrows d Hd) as (e & He & Hc & Hused).
  split.
  - exists e. split; [|done]. apply list_elem_of_fmap. exists e.
    split; [|exact He]. symmetry. apply freed_if_in_other.
    intros (k & d' & Hk & Hd' & Hok)%committed_lookup.
    cbn in Hok.
    pose proof (list_elem_of_lookup_2 _ _ _ Hk)
      as [_ Hin']%list_elem_of_filter.
    assert (d' = d) as -> by (eapply unique_code; eauto; congruence).
    assert (k = j) as ->; [|congruence].
    eapply NoDup_lookup; [|exact Hk|exact Hj].
    apply NoDup_filter. by eapply NoDup_fmap_1.
  - intros d' [Hlive Hd']%list_elem_of_filter Hcode.
    apply Hlive. by rewrite (unique_code _ d d' Hcodes Hd Hd' Hcode).
Qed.

(** X12: [shorten_url] changes everything or nothing.  However a run
    ends, either the state is exactly as it was, or the answer is 201 and
    the state has both a new mapping and a used row for its code: a code
    is never taken from the pool without its mapping being stored. *)
Theorem shorten_url_all_or_nothing (fuel : nat) (data : Request.t)
    (now : datetime.t) (st st' : state) :
  final_state (shorten_url rand fuel data now st) = Some st' ->
  st' = st \/
  exists body d e,
    shorten_url rand fuel data now st = Ok (Json 201 body) st' /\
    url_mapping st' = url_mapping st ++ [d] /\
    e ∈ key_pool st' /\
    KeyPool.short_code e = Doc.short_code d /\ KeyPool.used e = true.
Proof.
  intros [->|(body & Hrun & _)]%shorten_url_final; [by left|right].
  destruct (shorten_url_created _ _ _ _ _ _ Hrun)
    as (code & st1 & url & expires_at & Halloc & ->).
  apply allocate_key_inv in Halloc
    as [(i & e & Hfind & -> & ->)|(_ & k & _ & _ & -> & ->)].
  - destruct (first_unused_Some _ _ _ Hfind) as [Hi _].
    exists body, (new_doc (url_mapping st) (KeyPool.short_code e) url
                          (Some expires_at)), (KeyPool.set_used true e).
    split; [exact Hrun|]. split; [reflexivity|]. split; [|done].
    apply list_elem_of_insert. by eapply lookup_lt_Some.
  - eexists body, _, _. split; [exact Hrun|]. split; [reflexivity|].
    split; [apply elem_of_app; right; by left|done].
Qed.

(** ** The cache between invalidations *)



(** X14: a full cache makes room by dropping its least recently used
    entry.  With 1000 entries, none for [c], a lookup of [c] reads the
    collection, puts the result in front and drops the last entry; the
    other 999 stay, in their order. *)
Theorem full_cache_drops_least_recent (c : string) (st : state)
    (kept : list (string * mapping)) (oldest : string * mapping) :
  cache st = kept ++ [oldest] ->
  length (cache st) = 1000%nat ->
  c ∉ (cache st).*1 ->
  get_url_mapping c st
  = Ok (stored c (url_mapping st))
       (with_cache ((c, stored c (url_mapping st)) :: kept) st).
Proof.
  intros Hcache Hlen Hnew.
  assert (Hmiss : list_find (fun kv => kv.1 = c) (cache st) = None).
  { apply list_find_None, Forall_forall. intros [k v] Hin Hk. apply Hnew.
    apply list_elem_of_fmap. by exists (k, v). }
  rewrite get_url_mapping_run. unfold looked_up, cache_after. rewrite Hmiss.
  do 2 f_equal. change lru_maxsize with (S 999). cbn [take]. f_equal.
  rewrite Hcache in *. rewrite length_app in Hlen. cbn in Hlen.
  apply take_app_length'. lia.
Qed.

(** ** The pool only grows *)

Lemma step_codes (st st' : state) :
  step rand st st' ->
  codes (key_pool st) `prefix_of` codes (key_pool st').
Proof.
  intros [fuel data now st1 Hrun|c now st1 Hrun|commit_ok now st1 Hrun].
  - apply shorten_url_final in Hrun as [->|(body & Hrun & _)]; [done|].
    apply shorten_url_created in Hrun
      as (code & st2 & url & expires_at & Halloc & ->). cbn [key_pool].
    apply allocate_key_inv in Halloc
      as [(i & e & Hfind & -> & ->)|(_ & k & _ & _ & -> & ->)];
      cbn [key_pool with_key_pool].
    + destruct (first_unused_Some _ _ _ Hfind) as [Hi _].
      unfold codes. rewrite list_fmap_insert, list_insert_id; [done|].
      by rewrite list_lookup_fmap, Hi.
    + unfold codes. rewrite fmap_app. by apply prefix_app_r.
  - by apply redirect_short_url_final in Hrun as ->.
  - apply cleanup_expired_urls_final in Hrun as [Hrun _].
    rewrite cleanup_expired_urls_run in Hrun. cbv zeta in Hrun.
    injection Hrun as <-. cbn [key_pool].
    generalize (key_pool st) 0%nat.
    induction (filter _ (url_mapping st)) as [|d docs IH]; intros pool i;
      cbn [release_all]; [done|].
    etrans; [|apply IH]. destruct (commit_ok i); [|done].
    by rewrite codes_release.
Qed.

(** X15: no request and no sweep ever removes a row from the pool or
    changes its code: after any sequence of them the codes of the pool
    are the codes it had, in their order, followed by those added since. *)
Theorem pool_codes_only_grow (st st' : state) :
  rtc (step rand) st st' ->
  codes (key_pool st) `prefix_of` codes (key_pool st').
Proof.
  induction 1 as [|st st1 st2 Hstep _ IH]; [done|].
  etrans; [by apply step_codes|exact IH].
Qed.

(** ** Edges of the create route and of the sweep *)

(** X16: a retention window that takes the expiry outside the years 1 to
    9999, or that is itself beyond 999999999 days, makes [shorten_url]
    raise [OverflowError] before anything is allocated: the state is
    untouched, whatever the pool and the generator are. *)
Theorem shorten_url_overflow (fuel : nat) (data : Request.t)
    (now : datetime.t) (st : state) (url : string) :
  Request.long_url data = Some url -> url <> "" ->
  let days := default 365 (Request.expires_in_days data) in
  999999999 < Z.abs days \/
  now + days * datetime.us_per_day < 0 \/
  datetime.max_ordinal * datetime.us_per_day
    <= now + days * datetime.us_per_day ->
  shorten_url rand fuel data now st = Raise OverflowError st.
Proof.
  intros Hurl Hne days Hout. rewrite shorten_url_run, Hurl.
  cbn [truthy]. rewrite bool_decide_eq_false_2 by done. cbn [negb].
  cbv zeta. fold days.
  replace (negb (Z.abs days <=? 999999999)
           || negb (datetime.in_range (now + days * datetime.us_per_day)))
    with true; [reflexivity|].
  symmetry. apply orb_true_iff. unfold datetime.in_range.
  destruct (Z.leb_spec (Z.abs days) 999999999) as [Hdays|Hdays];
    [right|by left].
  apply negb_true_iff, andb_false_iff.
  destruct Hout as [Hout|[Hout|Hout]]; [lia| |].
  - left. by apply Z.leb_gt.
  - right. by apply Z.ltb_ge.
Qed.



End Properties.

(** * The statements at the sample states *)



Lemma allocate_key_claims_or_mints_witness :
  (exists i e,
     key_pool st_two !! i = Some e /\ KeyPool.used e = false /\
     allocate_key rand_counting 1 st_two
     = Ok (KeyPool.short_code e)
          (with_key_pool (<[i := KeyPool.set_used true e]> (key_pool st_two))
                         st_two)) /\
  (exists code,
     String.length code = 8%nat /\
     allocate_key rand_counting 1 st_taken
     = Ok code
          (State (key_pool st_taken ++
                  [KeyPool.Row (next_id (key_pool st_taken)) code true])
                 [] [] 8)).
Proof.
  split.
  - destruct (allocate_key_claims_or_mints rand_counting st_two)
      as (Hclaim & _ & _).
    destruct Hclaim as (i & e & Hi & He & Hrun).
    + exists (KeyPool.Row 3 "cccccccc" false).
      split; [vm_compute; do 2 right; left|reflexivity].
    + exists i, e. split; [exact Hi|]. split; [exact He|]. apply Hrun.
  - destruct (allocate_key_claims_or_mints rand_counting st_taken)
      as (_ & Hmint & _).
    destruct (Hmint) with (k := 0%nat) as (code & Hlen & _ & _ & Hrun).
    + intros e ->%list_elem_of_singleton. reflexivity.
    + split; [intros j Hj; lia|].
      intros Hin%list_elem_of_singleton. vm_compute in Hin. discriminate.
    + exists code. split; [exact Hlen|]. apply Hrun. lia.
Defined.









Lemma expiry_check_is_strict_witness :
  redirect_short_url "aaaaaaaa" feb29 st_cold
  = Ok (Redirect 302 "http://example.com")
       (with_cache (cache_after "aaaaaaaa" st_cold) st_cold) /\
  redirect_short_url "aaaaaaaa" (feb29 + 1) st_cold
  = Ok (Json 410 [("error", "URL expired")])
       (with_cache (cache_after "aaaaaaaa" st_cold) st_cold).
Proof.
  destruct (expiry_check_is_strict "aaaaaaaa" st_cold "http://example.com")
    as [Hdated _].
  destruct (Hdated feb29 (feb29 + 1)) as (Hgone & _ & Hat); [reflexivity|].
  split; [exact Hat|]. apply Hgone. reflexivity.
Defined.

(** * Further statements at the sample states *)

Lemma st_created_reachable : reachable rand_counting st_created.
Proof.
  apply (reachable_step _ (State [] [] [] 0)); [apply reachable_start|].
  by apply (step_shorten _ _ 1%nat req_zero feb29).
Qed.

Lemma st_two_consistent : consistent st_two.
Proof.
  split; [|split; [|split]].
  - apply (bool_decide_unpack _). vm_compute. exact I.
  - apply (bool_decide_unpack _). vm_compute. exact I.
  - apply (bool_decide_unpack _). vm_compute. exact I.
  - intros d [->|[->|Hd%not_elem_of_nil]%elem_of_cons]%elem_of_cons;
      [| |done].
    + exists (KeyPool.Row 1 "aaaaaaaa" true). split; [left|done].
    + exists (KeyPool.Row 2 "bbbbbbbb" true). split; [right; left|done].
Qed.

Lemma reachable_states_are_consistent_witness : consistent st_created.
Proof.
  exact (reachable_states_are_consistent rand_counting st_created
           st_created_reachable).
Defined.


Lemma reachable_cache_is_bounded_witness :
  (length (cache st_created) <= 1000)%nat /\ NoDup (cache st_created).*1.
Proof.
  exact (reachable_cache_is_bounded rand_counting st_created
           st_created_reachable).
Defined.



Lemma recycled_code_is_reallocated_witness :
  exists st1,
    recycle_key true "aaaaaaaa" st_taken = Ok tt st1 /\
    allocate_key rand_counting 1 st1 = Ok "aaaaaaaa" st_taken.
Proof.
  destruct (recycled_code_is_reallocated rand_counting "aaaaaaaa" st_taken
              0%nat (KeyPool.Row 1 "aaaaaaaa" true) eq_refl eq_refl)
    as (st1 & Hrecycle & _ & Hnext).
  exists st1. split; [exact Hrecycle|apply Hnext].
Defined.

Lemma successive_allocations_differ_witness :
  allocate_key rand_counting 1 st_taken
  = Ok "abcdefgh"
       (State [KeyPool.Row 1 "aaaaaaaa" true; KeyPool.Row 2 "abcdefgh" true]
              [] [] 8) /\
  allocate_key rand_counting 1
    (State [KeyPool.Row 1 "aaaaaaaa" true; KeyPool.Row 2 "abcdefgh" true]
           [] [] 8)
  = Ok "ijklmnop"
       (State [KeyPool.Row 1 "aaaaaaaa" true; KeyPool.Row 2 "abcdefgh" true;
               KeyPool.Row 3 "ijklmnop" true] [] [] 16) /\
  "abcdefgh" <> "ijklmnop".
Proof.
  split; [reflexivity|]. split; [reflexivity|].
  eapply (successive_allocations_differ rand_counting 1 1 st_taken);
    [|reflexivity|reflexivity].
  apply (bool_decide_unpack _). vm_compute. exact I.
Defined.

Lemma sweep_without_expired_is_noop_witness :
  cleanup_expired_urls (fun _ => true) feb29 st_two = Ok tt st_two.
Proof.
  apply sweep_without_expired_is_noop.
  intros d t [->|[->|Hd%not_elem_of_nil]%elem_of_cons]%elem_of_cons Ht;
    [| |done]; vm_compute in Ht; injection Ht as <-; vm_compute; discriminate.
Defined.

Lemma sweep_again_is_noop_witness :
  exists st1,
    cleanup_expired_urls (fun _ => false) (feb29 + 1) st_two = Ok tt st1 /\
    st1 <> st_two /\
    cleanup_expired_urls (fun _ => true) (feb29 + 1) st1 = Ok tt st1.
Proof.
  destruct (cleanup_expired_urls (fun _ => false) (feb29 + 1) st_two)
    as [[] st1| |] eqn:Hrun; [|vm_compute in Hrun; discriminate..].
  exists st1. split; [reflexivity|]. split.
  - vm_compute in Hrun. injection Hrun as <-. discriminate.
  - destruct st_two_consistent as (Hids & _).
    apply (sweep_again_is_noop (fun _ => false) (fun _ => true)
             (feb29 + 1) (feb29 + 1) st_two st1 Hids Hrun).
    reflexivity.
Defined.

Lemma leaked_code_stays_leaked_witness :
  leaked "aaaaaaaa"
    (State [KeyPool.Row 1 "aaaaaaaa" true; KeyPool.Row 2 "abcdefgh" true]
           [Doc.Make 1 "abcdefgh" "http://example.com" (Some feb29)] [] 8).
Proof.
  apply (leaked_code_stays_leaked rand_counting "aaaaaaaa" st_taken).
  - split; [|split; [|split]]; try constructor;
      try (by intros ? ?%not_elem_of_nil).
    + by intros ?%not_elem_of_nil.
    + constructor.
  - split; [|by intros ? ?%not_elem_of_nil].
    exists (KeyPool.Row 1 "aaaaaaaa" true). split; [left|done].
  - apply rtc_once. by apply (step_shorten _ _ 1%nat req_zero feb29).
Defined.

Lemma failed_recycle_leaks_code_witness :
  exists st1,
    cleanup_expired_urls (fun _ => false) (feb29 + 1) st_two = Ok tt st1 /\
    leaked "aaaaaaaa" st1.
Proof.
  destruct (cleanup_expired_urls (fun _ => false) (feb29 + 1) st_two)
    as [[] st1| |] eqn:Hrun; [|vm_compute in Hrun; discriminate..].
  exists st1. split; [reflexivity|].
  apply (failed_recycle_leaks_code (fun _ => false) (feb29 + 1) st_two st1
           0%nat doc_old st_two_consistent); [reflexivity|reflexivity|exact Hrun].
Defined.

Lemma shorten_url_all_or_nothing_witness :
  exists st',
    final_state (shorten_url rand_counting 1 req_net feb29 st_two) = Some st' /\
    (st' = st_two \/
     exists body d e,
       shorten_url rand_counting 1 req_net feb29 st_two
       = Ok (Json 201 body) st' /\
       url_mapping st' = url_mapping st_two ++ [d] /\
       e ∈ key_pool st' /\
       KeyPool.short_code e = Doc.short_code d /\ KeyPool.used e = true).
Proof.
  destruct (final_state (shorten_url rand_counting 1 req_net feb29 st_two))
    as [st'|] eqn:Hrun; [|vm_compute in Hrun; discriminate].
  exists st'. split; [reflexivity|].
  by apply (shorten_url_all_or_nothing rand_counting 1 req_net feb29).
Defined.


Lemma full_cache_drops_least_recent_witness :
  get_url_mapping "zzzzzzzz" st_full
  = Ok None (with_cache (("zzzzzzzz", None) :: take 999 full_cache) st_full).
Proof.
  apply (full_cache_drops_least_recent "zzzzzzzz" st_full
           (take 999 full_cache)
           ("00000999", None)).
  - vm_compute. reflexivity.
  - vm_compute. reflexivity.
  - apply (bool_decide_unpack _). vm_compute. exact I.
Defined.

Lemma pool_codes_only_grow_witness :
  codes (key_pool st_taken)
  `prefix_of` ["aaaaaaaa"; "abcdefgh"].
Proof.
  apply (pool_codes_only_grow rand_counting st_taken
           (State [KeyPool.Row 1 "aaaaaaaa" true; KeyPool.Row 2 "abcdefgh" true]
                  [Doc.Make 1 "abcdefgh" "http://example.com" (Some feb29)]
                  [] 8)).
  apply rtc_once. by apply (step_shorten _ _ 1%nat req_zero feb29).
Defined.

Lemma shorten_url_overflow_witness :
  shorten_url rand_counting 1
    (Request.Make (Some "http://example.com") (Some 4000000)) feb29 st_two
  = Raise OverflowError st_two.
Proof.
  apply (shorten_url_overflow rand_counting 1 _ feb29 st_two
           "http://example.com"); [reflexivity|discriminate|].
  right. right. vm_compute. discriminate.
Defined.

